(** * Key Vault challenge authentication, paging and polling: a shallow embedding

    The development follows three pieces of the SDK:

    - [ChallengeAuthPolicy] of
      [azure/keyvault/securitydomain/_internal/challenge_auth_policy.py]
      (module [Policy] below), with the Python string and URL helpers it
      relies on (module [PyStr]);
    - [PathPropertiesPaged] of
      [azure/storage/filedatalake/aio/_list_paths_helper.py] (module
      [Paging]);
    - the backup poller exercised by
      [azure-keyvault-administration/tests/test_backup_client.py] (module
      [Polling]).

    The definitions come first; the facts follow in [PyStrFacts],
    [PolicyFacts], [PagingFacts] and [PollingFacts], and [Scenarios] runs
    the policy against the concrete vault of [Sample].

    Python strings are modelled as byte strings ([string]); only the ASCII
    range is given a meaning by [lower] and [strip]. *)

From Stdlib Require Import String Ascii List ZArith Lia Bool.
From stdpp Require Import base option gmap strings list.

Local Open Scope string_scope.
Local Open Scope list_scope.

(* ===================================================================== *)
(** ** Python [str] methods and [urllib.parse.urlparse]                   *)
(* ===================================================================== *)

Module PyStr.

(** [c.lower()] on one ASCII character. *)
Definition lower_ascii (c : ascii) : ascii :=
  let n := nat_of_ascii c in
  if (65 <=? n)%nat && (n <=? 90)%nat then ascii_of_nat (n + 32) else c.

(** [s.lower()] *)
Fixpoint lower (s : string) : string :=
  match s with
  | EmptyString => EmptyString
  | String c r => String (lower_ascii c) (lower r)
  end.

(** [s.startswith(p)] *)
Fixpoint startswith (s p : string) : bool :=
  match p, s with
  | EmptyString, _ => true
  | String _ _, EmptyString => false
  | String a p', String b s' => Ascii.eqb a b && startswith s' p'
  end.

(** [s[n:]] *)
Fixpoint drop (n : nat) (s : string) : string :=
  match n, s with
  | O, _ => s
  | S _, EmptyString => EmptyString
  | S k, String _ r => drop k r
  end.

(** [s.endswith(p)]: [p] is no longer than [s] and the last [len(p)]
    characters of [s] are [p]. *)
Definition endswith (s p : string) : bool :=
  (String.length p <=? String.length s)%nat
  && String.eqb (drop (String.length s - String.length p) s) p.

(** [needle in hay] *)
Fixpoint contains (needle hay : string) : bool :=
  startswith hay needle
  || match hay with
     | EmptyString => false
     | String _ r => contains needle r
     end.

(** [s.split(c)] for a one-character separator: never the empty list. *)
Fixpoint split (c : ascii) (s : string) : list string :=
  match s with
  | EmptyString => [EmptyString]
  | String a r =>
      if Ascii.eqb a c then EmptyString :: split c r
      else match split c r with
           | [] => [String a EmptyString]
           | w :: ws => String a w :: ws
           end
  end.

(** [s.split(c, 1)]: cut at the first [c] only; one element when [c] does
    not occur. *)
Fixpoint split1 (c : ascii) (s : string) : list string :=
  match s with
  | EmptyString => [EmptyString]
  | String a r =>
      if Ascii.eqb a c then [EmptyString; r]
      else match split1 c r with
           | w :: ws => String a w :: ws
           | [] => [String a EmptyString]
           end
  end.

(** The ASCII characters for which [str.isspace()] holds. *)
Definition is_space (c : ascii) : bool :=
  let n := nat_of_ascii c in
  ((9 <=? n)%nat && (n <=? 13)%nat) || ((28 <=? n)%nat && (n <=? 32)%nat).

(** [s.lstrip(chars)], [s.rstrip(chars)] and [s.strip(chars)], the set of
    characters given as a predicate. *)
Fixpoint lstrip_by (p : ascii -> bool) (s : string) : string :=
  match s with
  | EmptyString => EmptyString
  | String a r => if p a then lstrip_by p r else s
  end.

Fixpoint rstrip_by (p : ascii -> bool) (s : string) : string :=
  match s with
  | EmptyString => EmptyString
  | String a r =>
      match rstrip_by p r with
      | EmptyString => if p a then EmptyString else String a EmptyString
      | r' => String a r'
      end
  end.

Definition strip_by (p : ascii -> bool) (s : string) : string :=
  rstrip_by p (lstrip_by p s).

(** [s.strip()] *)
Definition strip (s : string) : string := strip_by is_space s.

(** [bool(s)] for a string. *)
Definition truthy (s : string) : bool := negb (String.eqb s "").

(** Python's [a or b] on strings. *)
Definition str_or (a b : string) : string := if truthy a then a else b.

(** *** [urlparse]

    [urllib.parse.urlsplit] as far as the authority and the path are
    concerned: an optional scheme (a letter followed by letters, digits,
    [+], [-] or [.], up to the first colon), then, after [//], the authority
    up to the first of [/], [?] and [#]. *)

Definition is_alpha (c : ascii) : bool :=
  let n := nat_of_ascii c in
  ((65 <=? n)%nat && (n <=? 90)%nat) || ((97 <=? n)%nat && (n <=? 122)%nat).

Definition is_scheme_char (c : ascii) : bool :=
  let n := nat_of_ascii c in
  is_alpha c || ((48 <=? n)%nat && (n <=? 57)%nat)
  || Ascii.eqb c "+" || Ascii.eqb c "-" || Ascii.eqb c ".".

Fixpoint all_chars (p : ascii -> bool) (s : string) : bool :=
  match s with
  | EmptyString => true
  | String a r => p a && all_chars p r
  end.

(** The text after the scheme and its colon, or the whole text when it
    starts with no scheme. *)
Definition after_scheme (url : string) : string :=
  match split1 ":" url with
  | [sch; rest] =>
      match sch with
      | String a _ =>
          if is_alpha a && all_chars is_scheme_char sch then rest else url
      | EmptyString => url
      end
  | _ => url
  end.

(** [takewhile]/[dropwhile] on strings. *)
Fixpoint take_until (p : ascii -> bool) (s : string) : string :=
  match s with
  | EmptyString => EmptyString
  | String a r => if p a then EmptyString else String a (take_until p r)
  end.

Fixpoint drop_until (p : ascii -> bool) (s : string) : string :=
  match s with
  | EmptyString => EmptyString
  | String a r => if p a then s else drop_until p r
  end.

Definition is_netloc_end (c : ascii) : bool :=
  Ascii.eqb c "/" || Ascii.eqb c "?" || Ascii.eqb c "#".

(** [to_remove]: the tab, carriage return and line feed that [urlsplit]
    deletes from a URL before it reads it. *)
Fixpoint remove_chars (p : ascii -> bool) (s : string) : string :=
  match s with
  | EmptyString => EmptyString
  | String a r => if p a then remove_chars p r else String a (remove_chars p r)
  end.

Definition is_unsafe_url_byte (c : ascii) : bool :=
  let n := nat_of_ascii c in (n =? 9)%nat || (n =? 10)%nat || (n =? 13)%nat.

Definition is_c0_or_space (c : ascii) : bool := (nat_of_ascii c <=? 32)%nat.

Definition url_clean (url : string) : string :=
  remove_chars is_unsafe_url_byte (lstrip_by is_c0_or_space url).

(** [urlsplit(url).netloc], without the check on square brackets. *)
Definition splitnetloc (url : string) : string :=
  let u := after_scheme (url_clean url) in
  if startswith u "//" then take_until is_netloc_end (drop 2 u) else "".

(** [urlsplit(url).path] *)
Definition url_path (url : string) : string :=
  let u := after_scheme (url_clean url) in
  let rest := if startswith u "//" then drop_until is_netloc_end (drop 2 u) else u in
  take_until (fun c => Ascii.eqb c "?" || Ascii.eqb c "#") rest.

(** [urlsplit] raises [ValueError("Invalid IPv6 URL")] when exactly one of
    the two square brackets occurs in the authority. *)
Definition netloc_brackets_ok (nl : string) : bool :=
  Bool.eqb (contains "[" nl) (contains "]" nl).

End PyStr.


Import PyStr.

(* ===================================================================== *)
(** ** The challenge authentication policy                                *)
(* ===================================================================== *)

Module Policy.

(** *** Data *)

(** The exceptions that can leave the policy.  [ServiceRequestError] is what
    [_enforce_tls] raises; [ValueError] is raised by the resource
    verification of [on_challenge] (and by the challenge parser, where it is
    caught); [IndexError] by the list indexing of [_has_claims];
    [AttributeError] by [self._token.token] on [None].  The remaining two
    stand for what the transport and the credential may raise. *)
Inductive exn : Type :=
  | ServiceRequestError (msg : string)
  | ValueError (msg : string)
  | IndexError (msg : string)
  | AttributeError (msg : string)
  | TransportError (msg : string)
  | ClientAuthenticationError (msg : string).

Inductive result (A : Type) : Type :=
  | Ok (a : A)
  | Raise (e : exn).
Arguments Ok {A} a.
Arguments Raise {A} e.

(** Header maps are case insensitive: names are kept in lower case. *)
Definition hdr_get (h : gmap string string) (name : string) : option string :=
  h !! lower name.
Definition hdr_set (h : gmap string string) (name value : string) : gmap string string :=
  <[lower name := value]> h.

(** [azure.core.rest.HttpRequest]; [content] is [None] for a request
    without a body. *)
Record HttpRequest : Type := mkHttpRequest {
  method : string;
  url : string;
  headers : gmap string string;
  content : option string
}.

(** [azure.core.pipeline.PipelineRequest]: the HTTP request and the options
    of its context. *)
Record PipelineRequest : Type := mkPipelineRequest {
  http_request : HttpRequest;
  context_options : gmap string bool
}.

(** What the next policy answers.  A [PipelineResponse] is identified with
    the [HttpResponse] it carries. *)
Record HttpResponse : Type := mkHttpResponse {
  status_code : Z;
  response_headers : gmap string string;
  body : string
}.

(** [AccessToken] / [AccessTokenInfo]; [refresh_on] is absent on the
    former.  Times are whole seconds. *)
Record AccessToken : Type := mkAccessToken {
  token : string;
  expires_on : Z;
  refresh_on : option Z
}.

(** One call of the credential: [get_token(scope, claims=, tenant_id=,
    enable_cae=)] or, when [via_token_info], [get_token_info(scope,
    options=...)] with the same entries.  An argument that is not passed and
    one that is passed as [None] are both [None]. *)
Record TokenRequest : Type := mkTokenRequest {
  tr_scope : string;
  tr_claims : option string;
  tr_tenant_id : option string;
  tr_enable_cae : bool;
  via_token_info : bool
}.

(** Modelled from the spec: the [HttpChallenge] class is not among the
    sources.  A parsed challenge has its name=value parameters (the policy
    writes [_parameters["scope"]] itself), the claims and the tenant
    identifier read from the authorization endpoint. *)
Record HttpChallenge : Type := mkHttpChallenge {
  _parameters : gmap string string;
  claims : option string;
  tenant_id : option string
}.

(** Modelled from the spec: [HttpChallenge.get_scope] and [get_resource],
    the scope and resource parameters, empty when absent. *)
Definition get_scope (c : HttpChallenge) : string :=
  default "" (_parameters c !! "scope").
Definition get_resource (c : HttpChallenge) : string :=
  default "" (_parameters c !! "resource").

(** Truth value of an [Optional[str]]. *)
Definition opt_truthy (o : option string) : bool :=
  match o with
  | Some s => truthy s
  | None => false
  end.

(** [challenge.get_scope() or challenge.get_resource() + "/.default"] *)
Definition scope_or_default (c : HttpChallenge) : string :=
  str_or (get_scope c) (get_resource c +:+ "/.default").

(** [t.lower().endswith("adfs")] guarded by [t] being set. *)
Definition is_adfs (t : option string) : bool :=
  match t with
  | Some s => truthy s && endswith (lower s) "adfs"
  | None => false
  end.

(** What the policy is constructed with and runs against.  The challenge
    parser is a parameter: [None] stands for the [ValueError] of a header
    that does not parse.  [responses n] is the answer of the next policy to
    the [n]-th request it is handed (counted from 0). *)
Record Env : Type := mkEnv {
  HttpChallenge_init :
    string -> option string -> gmap string string -> option HttpChallenge;
  has_get_token_info : bool;
  get_token : TokenRequest -> result AccessToken;
  _verify_challenge_resource : bool;
  responses : nat -> result HttpResponse;
  now : Z
}.

(** The mutable state: the attributes of the policy instance, the
    process-wide challenge cache, and two logs that record what was handed
    to the next policy and what was asked of the credential. *)
Record State : Type := mkState {
  _token : option AccessToken;
  _request_copy : option HttpRequest;
  cache : gmap string HttpChallenge;
  sent : list HttpRequest;
  token_requests : list TokenRequest
}.

Definition set_token (t : option AccessToken) (s : State) : State :=
  mkState t (_request_copy s) (cache s) (sent s) (token_requests s).
Definition set_request_copy (r : option HttpRequest) (s : State) : State :=
  mkState (_token s) r (cache s) (sent s) (token_requests s).
Definition set_cache (c : gmap string HttpChallenge) (s : State) : State :=
  mkState (_token s) (_request_copy s) c (sent s) (token_requests s).
Definition log_sent (r : HttpRequest) (s : State) : State :=
  mkState (_token s) (_request_copy s) (cache s) (sent s ++ [r]) (token_requests s).
Definition log_token_request (r : TokenRequest) (s : State) : State :=
  mkState (_token s) (_request_copy s) (cache s) (sent s) (token_requests s ++ [r]).

(** *** A state and exception monad *)

Definition M (A : Type) : Type := State -> result A * State.

Definition ret {A} (a : A) : M A := fun s => (Ok a, s).
Definition raise {A} (e : exn) : M A := fun s => (Raise e, s).
Definition bind {A B} (m : M A) (k : A -> M B) : M B :=
  fun s => match m s with
           | (Ok a, s') => k a s'
           | (Raise e, s') => (Raise e, s')
           end.
Definition get : M State := fun s => (Ok s, s).
Definition modify (f : State -> State) : M unit := fun s => (Ok tt, f s).
Definition lift {A} (r : result A) : M A := fun s => (r, s).

(** [try: m except ValueError: h] *)
Definition except_ValueError {A} (m : M A) (h : M A) : M A :=
  fun s => match m s with
           | (Raise (ValueError _), s') => h s'
           | r => r
           end.

(** [try: m except Exception: h; raise] *)
Definition except_reraise {A} (m : M A) (h : M unit) : M A :=
  fun s => match m s with
           | (Raise e, s') => (Raise e, snd (h s'))
           | r => r
           end.

Declare Scope policy_scope.
Delimit Scope policy_scope with policy.
Notation "'do' x <- m ; k" := (bind m (fun x => k))
  (at level 10, x name, m at level 100, k at level 200) : policy_scope.
Notation "'exec' m ; k" := (bind m (fun _ => k))
  (at level 10, m at level 100, k at level 200) : policy_scope.
Local Open Scope policy_scope.

(** *** The functions of [challenge_auth_policy.py] *)

Definition tls_message : string :=
  "Bearer token authentication is not permitted for non-TLS protected (non-https) URLs.".

Definition _enforce_tls (request : PipelineRequest) : M unit :=
  if negb (startswith (lower (url (http_request request))) "https")
  then raise (ServiceRequestError tls_message)
  else ret tt.

(** [_has_claims]: [split_challenge[1]] raises [IndexError] when the
    stripped header has no space in it. *)
Definition _has_claims (challenge : string) : result bool :=
  let split_challenge := split1 " " (strip challenge) in
  match split_challenge !! 1%nat with
  | Some params => Ok (existsb (fun item => contains "claims=" item) (split "," params))
  | None => Raise (IndexError "list index out of range")
  end.

(** Modelled from the spec: the [http_challenge_cache] module is not among
    the sources.  The cache is a map keyed by the normalised authority of
    the request URL, with plain map semantics and no error. *)
Definition cache_key (u : string) : string := lower (splitnetloc u).

Definition get_challenge_for_url (u : string) : M (option HttpChallenge) :=
  do s <- get ; ret (cache s !! cache_key u).

Definition set_challenge_for_url (u : string) (c : HttpChallenge) : M unit :=
  modify (fun s => set_cache (<[cache_key u := c]> (cache s)) s).

Section WithEnv.

Variable E : Env.

(** [_update_challenge]: parse the challenge of the response, cache it and
    return it. *)
Definition _update_challenge (request : PipelineRequest) (challenger : HttpResponse)
  : M HttpChallenge :=
  match HttpChallenge_init E (url (http_request request))
          (hdr_get (response_headers challenger) "WWW-Authenticate")
          (response_headers challenger) with
  | None => raise (ValueError "Invalid challenge")
  | Some challenge =>
      exec set_challenge_for_url (url (http_request request)) challenge ;
      ret challenge
  end.

(** [self.next.send(request)]: the request is logged and the next answer is
    read. *)
Definition next_send (request : PipelineRequest) : M HttpResponse :=
  fun s => (responses E (length (sent s)), log_sent (http_request request) s).

(** The hooks of the base class do nothing. *)
Definition on_response (request : PipelineRequest) (response : HttpResponse) : M unit :=
  ret tt.
Definition on_exception (request : PipelineRequest) : M unit := ret tt.

(** A call of the credential, logged. *)
Definition call_credential (r : TokenRequest) : M AccessToken :=
  exec modify (log_token_request r) ; lift (get_token E r).

(** Modelled from the spec: [BearerTokenCredentialPolicy.authorize_request]
    of the base class is not among the sources.  It acquires a token for
    the scope with the optional claims and tenant (continuous access
    evaluation is switched on by the constructor), keeps it in [_token] and
    attaches it to the request. *)
Definition authorize_request (request : PipelineRequest) (scope : string)
    (claims_ tenant : option string) : M PipelineRequest :=
  do tok <- call_credential
           (mkTokenRequest scope claims_ tenant true (has_get_token_info E)) ;
  exec modify (set_token (Some tok)) ;
  let r := http_request request in
  ret (mkPipelineRequest
         (mkHttpRequest (method r) (url r)
            (hdr_set (headers r) "Authorization" ("Bearer " +:+ token tok))
            (content r))
         (context_options request)).

(** [_need_new_token] *)
Definition _need_new_token (s : State) : bool :=
  match _token s with
  | None => true
  | Some t =>
      match refresh_on t with
      | Some r => negb (r =? 0)%Z && (r <=? now E)%Z
      | None => false
      end
      || (expires_on t - now E <? 300)%Z
  end.

(** [_request_kv_token] *)
Definition _request_kv_token (scope : string) (challenge : HttpChallenge) : M unit :=
  let exclude_tenant := is_adfs (tenant_id challenge) in
  if has_get_token_info E then
    let tenant := if opt_truthy (tenant_id challenge) && negb exclude_tenant
                  then tenant_id challenge else None in
    do tok <- call_credential (mkTokenRequest scope None tenant true true) ;
    modify (set_token (Some tok))
  else if exclude_tenant then
    do tok <- call_credential (mkTokenRequest scope None None true false) ;
    modify (set_token (Some tok))
  else
    do tok <- call_credential
             (mkTokenRequest scope None (tenant_id challenge) true false) ;
    modify (set_token (Some tok)).

(** [on_request] *)
Definition on_request (request : PipelineRequest) : M PipelineRequest :=
  exec _enforce_tls request ;
  do challenge <- get_challenge_for_url (url (http_request request)) ;
  match challenge with
  | Some challenge =>
      do s <- get ;
      exec (if _need_new_token s
            then _request_kv_token (scope_or_default challenge) challenge
            else ret tt) ;
      do s <- get ;
      match _token s with
      | None => raise (AttributeError "'NoneType' object has no attribute 'token'")
      | Some t =>
          let r := http_request request in
          ret (mkPipelineRequest
                 (mkHttpRequest (method r) (url r)
                    (hdr_set (headers r) "Authorization" ("Bearer " +:+ token t))
                    (content r))
                 (context_options request))
      end
  | None =>
      if opt_truthy (content (http_request request)) then
        exec modify (set_request_copy (Some (http_request request))) ;
        let r := http_request request in
        let bodiless_request :=
          mkHttpRequest (method r) (url r)
            (hdr_set (headers r) "Content-Length" "0") None in
        ret (mkPipelineRequest bodiless_request (context_options request))
      else ret request
  end.


Definition invalid_scope_message (scope : string) : string :=
  "The challenge contains invalid scope '" +:+ scope +:+ "'.".

Definition mismatch_message (resource_domain : string) : string :=
  "The challenge resource '" +:+ resource_domain
  +:+ "' does not match the requested domain. Pass "
  +:+ "`verify_challenge_resource=False` to your client's constructor to disable this verification. "
  +:+ "See https://aka.ms/azsdk/blog/vault-uri for more information.".

(** [urlparse(u).netloc], with the [ValueError] of [urlsplit]. *)
Definition urlparse_netloc (u : string) : M string :=
  let nl := splitnetloc u in
  if netloc_brackets_ok nl then ret nl else raise (ValueError "Invalid IPv6 URL").

(** The body of the [try] block of [on_challenge]: the challenge to use and
    the scope derived from it.  The challenge object that is updated is the
    one [_update_challenge] has just put into the cache, so the cache entry
    changes with it. *)
Definition on_challenge_try (request : PipelineRequest) (response : HttpResponse)
  : M (HttpChallenge * string) :=
  do cached_challenge <- get_challenge_for_url (url (http_request request)) ;
  let old_scope := scope_or_default <$> cached_challenge in
  let old_tenant := cached_challenge ≫= tenant_id in
  do challenge <- _update_challenge request response ;
  do challenge <-
    (if opt_truthy (claims challenge) && opt_truthy old_scope then
       let challenge' :=
         mkHttpChallenge (<["scope" := default "" old_scope]> (_parameters challenge))
           (claims challenge) old_tenant in
       exec set_challenge_for_url (url (http_request request)) challenge' ;
       ret challenge'
     else ret challenge) ;
  ret (challenge, scope_or_default challenge).

(** The verification of the challenge resource against the request domain. *)
Definition verify_resource (request : PipelineRequest) (scope : string) : M unit :=
  if _verify_challenge_resource E then
    do resource_domain <- urlparse_netloc scope ;
    if negb (truthy resource_domain) then
      raise (ValueError (invalid_scope_message scope))
    else
      do request_domain <- urlparse_netloc (url (http_request request)) ;
      if negb (endswith (lower request_domain) ("." +:+ lower resource_domain)) then
        raise (ValueError (mismatch_message resource_domain))
      else ret tt
  else ret tt.

(** [on_challenge].  The request copy kept by [on_request] and the HTTP
    request of the pipeline request are one object once the copy has been put
    back, so the header written by [authorize_request] shows in both. *)
Definition on_challenge (request : PipelineRequest) (response : HttpResponse)
  : M (bool * PipelineRequest) :=
  do parsed <- except_ValueError
                 (do r <- on_challenge_try request response ; ret (Some r))
                 (ret None) ;
  match parsed with
  | None => ret (false, request)
  | Some (challenge, scope) =>
      exec verify_resource request scope ;
      do s <- get ;
      let request :=
        match _request_copy s with
        | Some copy => mkPipelineRequest copy (context_options request)
        | None => request
        end in
      do request <-
        (if is_adfs (tenant_id challenge)
         then authorize_request request scope (claims challenge) None
         else authorize_request request scope (claims challenge) (tenant_id challenge)) ;
      exec (match _request_copy s with
            | Some _ => modify (set_request_copy (Some (http_request request)))
            | None => ret tt
            end) ;
      ret (true, request)
  end.

(** One activation of [handle_challenge_flow], the recursive call being
    [recur]. *)
Definition handle_challenge_flow_body
    (recur : PipelineRequest -> HttpResponse -> M HttpResponse)
    (request : PipelineRequest) (response : HttpResponse)
    (consecutive_challenge : bool) : M HttpResponse :=
  exec modify (set_token None) ;
  match hdr_get (response_headers response) "WWW-Authenticate" with
  | Some www_authenticate =>
      do claims_challenge <- lift (_has_claims www_authenticate) ;
      if consecutive_challenge && negb claims_challenge then ret response
      else
        do authorized <- on_challenge request response ;
        let '(request_authorized, request) := authorized in
        if request_authorized then
          let request :=
            mkPipelineRequest (http_request request)
              (delete "insecure_domain_change" (context_options request)) in
          do response <- except_reraise (next_send request) (on_exception request) ;
          if (status_code response =? 401)%Z && negb consecutive_challenge then
            if negb claims_challenge then recur request response
            else
              exec on_response request response ;
              ret response
          else
            exec on_response request response ;
            ret response
        else ret response
  | None => ret response
  end.

(** [handle_challenge_flow].  The function calls itself only with
    [consecutive_challenge=True] and only when it was entered with [False],
    so two activations are all there can be; the innermost [recur] is never
    reached (lemma [handle_challenge_flow_consecutive] below). *)
Definition handle_challenge_flow (request : PipelineRequest) (response : HttpResponse)
    (consecutive_challenge : bool) : M HttpResponse :=
  handle_challenge_flow_body
    (fun request response =>
       handle_challenge_flow_body (fun _ response => ret response)
         request response true)
    request response consecutive_challenge.

(** [send] *)
Definition send (request : PipelineRequest) : M HttpResponse :=
  do request <- on_request request ;
  do response <- except_reraise (next_send request) (on_exception request) ;
  exec on_response request response ;
  if (status_code response =? 401)%Z
  then handle_challenge_flow request response false
  else ret response.

End WithEnv.

End Policy.

(* ===================================================================== *)
(** ** A concrete environment                                             *)
(* ===================================================================== *)

Module Sample.
Import Policy.

(** The double quote character and a text between double quotes. *)
Definition dquote : ascii := ascii_of_nat 34.
Definition quoted (s : string) : string := String dquote (s +:+ String dquote "").

Definition is_quote_or_space (c : ascii) : bool :=
  Ascii.eqb c " " || Ascii.eqb c dquote || Ascii.eqb c "'".

(** The text after the first [=] of an item. *)
Definition after_eq (item : string) : string :=
  match split1 "=" item with
  | [_; v] => v
  | _ => ""
  end.

(** One pass over the comma separated items of a challenge: name=value
    pairs go to the parameters, the [claims=] item (whose value may itself
    contain [=]) to the claims. *)
Fixpoint read_items (items : list string)
  : gmap string string * option string :=
  match items with
  | [] => (∅, None)
  | item :: rest =>
      let '(params, cl) := read_items rest in
      if contains "claims=" item then
        (params, Some (strip_by is_quote_or_space (after_eq item)))
      else
        match split "=" item with
        | [k; v] =>
            let k := strip_by is_quote_or_space k in
            if truthy k then (<[k := strip_by is_quote_or_space v]> params, cl)
            else (params, cl)
        | _ => (params, cl)
        end
  end.

(** The first segment of the path of the authorization endpoint. *)
Definition tenant_of (authorization : option string) : option string :=
  match authorization with
  | Some u =>
      match split "/" (lstrip_by (fun c => Ascii.eqb c "/") (url_path u)) with
      | seg :: _ => if truthy seg then Some seg else None
      | [] => None
      end
  | None => None
  end.

(** Modelled from the spec: a permissive parser of challenges of the form
    [Bearer authorization="<url>", resource="<resource>"], possibly with
    [scope=] and [claims=]; unknown parameters are kept and ignored.  It
    fails on a missing header, on a header without a scheme followed by
    parameters, and when nothing can be read from the parameters. *)
Definition parse_challenge (request_uri : string) (header : option string)
    (response_headers : gmap string string) : option HttpChallenge :=
  match header with
  | None => None
  | Some h =>
      match split1 " " (strip h) with
      | [scheme; rest] =>
          let '(params, cl) := read_items (split "," rest) in
          if negb (truthy scheme) then None
          else if bool_decide (params = ∅) && negb (opt_truthy cl) then None
          else Some (mkHttpChallenge params cl (tenant_of (params !! "authorization")))
      | _ => None
      end
  end.

(** A credential that always succeeds; the token names what it was issued
    for. *)
Definition credential (r : TokenRequest) : result AccessToken :=
  Ok (mkAccessToken
        ("token:" +:+ tr_scope r +:+ ":" +:+ default "" (tr_tenant_id r)
         +:+ ":" +:+ default "" (tr_claims r))
        3600 None).

(** The environment in which the next policy answers with the given
    responses, one per request, and fails once they are used up. *)
Definition env (verify : bool) (token_info : bool) (rs : list HttpResponse) : Env :=
  mkEnv parse_challenge token_info credential verify
    (fun n => match rs !! n with
              | Some r => Ok r
              | None => Raise (TransportError "no response")
              end)
    0.

Definition state0 : State := mkState None None ∅ [] [].

Definition response (status : Z) (www_authenticate : option string) (b : string)
  : HttpResponse :=
  mkHttpResponse status
    (match www_authenticate with
     | Some h => hdr_set ∅ "WWW-Authenticate" h
     | None => ∅
     end)
    b.

Definition kv_challenge : string :=
  "Bearer authorization=" +:+ quoted "https://login.windows.net/tenant-1"
  +:+ ", resource=" +:+ quoted "https://example.net".

Definition cae_challenge (c : string) : string :=
  "Bearer claims=" +:+ quoted c.

Definition request (u : string) (b : option string) : PipelineRequest :=
  mkPipelineRequest (mkHttpRequest "POST" u ∅ b) ∅.

End Sample.

(* ===================================================================== *)
(** ** Paged listing of paths                                             *)
(* ===================================================================== *)

Module Paging.

Inductive exn : Type :=
  | StopAsyncIteration
  | StorageError (msg : string).

Inductive result (A : Type) : Type :=
  | Ok (a : A)
  | Raise (e : exn).
Arguments Ok {A} a.
Arguments Raise {A} e.

Section WithService.

(** The generated [Path] model, the public [PathProperties] and the
    conversion [PathProperties._from_generated] are not among the sources;
    they are parameters. *)
Variables Path PathProperties : Type.
Variable _from_generated : Path -> PathProperties.

(** What a page holds before [_build_item]: a generated [Path] or an
    already converted [PathProperties]. *)
Inductive Item : Type :=
  | IsPath (p : Path)
  | IsPathProperties (p : PathProperties).

(** [PathPropertiesPaged._build_item] *)
Definition _build_item (item : Item) : PathProperties :=
  match item with
  | IsPathProperties p => p
  | IsPath p => _from_generated p
  end.

(** The list operation of the service client: given the continuation to
    resume from ([None] to start), the path list of one page and the
    [continuation] entry of the response headers, or the storage error that
    [process_storage_error] raises. *)
Variable _command : option string -> result (list Item * option string).

(** The iterator: the attributes of [AsyncPageIterator] and of
    [PathPropertiesPaged], and the log of the continuations the service was
    asked with. *)
Record PathPropertiesPaged : Type := mkPaged {
  continuation_token : option string;
  _did_a_call_already : bool;
  current_page : option (list PathProperties);
  path_list : option (list Item);
  calls : list (option string)
}.

(** [PathPropertiesPaged.__init__]: the iterator starts from
    [continuation_token or ""]. *)
Definition init (continuation : option string) : PathPropertiesPaged :=
  mkPaged (Some (default "" (if Policy.opt_truthy continuation then continuation else None)))
    false None None [].

(** [_get_next_cb]: the service is asked with [continuation_token or None]. *)
Definition _get_next_cb (it : PathPropertiesPaged) (continuation : option string)
  : result (list Item * option string) * PathPropertiesPaged :=
  let marker := if Policy.opt_truthy continuation then continuation else None in
  (_command marker,
   mkPaged (continuation_token it) (_did_a_call_already it) (current_page it)
     (path_list it) (calls it ++ [marker])).

(** [_extract_data_cb]: the continuation of the response, [None] when it is
    absent or empty, and the page built from the path list. *)
Definition _extract_data_cb (it : PathPropertiesPaged)
    (get_next_return : list Item * option string)
  : (option string * list PathProperties) * PathPropertiesPaged :=
  let '(pl, continuation) := get_next_return in
  let page := map _build_item pl in
  ((if Policy.opt_truthy continuation then continuation else None, page),
   mkPaged (continuation_token it) (_did_a_call_already it) (Some page) (Some pl)
     (calls it)).

(** Modelled from the spec: [AsyncPageIterator.__anext__] of azure-core is
    not among the sources.  A page is fetched with the current continuation
    token; the token is replaced on every successful fetch; once a page has
    been fetched and the token is absent the iterator is exhausted and asks
    for nothing more.  A failed fetch leaves the cursor where it was. *)
Definition next_page (it : PathPropertiesPaged)
  : result (list PathProperties) * PathPropertiesPaged :=
  match continuation_token it, _did_a_call_already it with
  | None, true => (Raise StopAsyncIteration, it)
  | _, _ =>
      match _get_next_cb it (continuation_token it) with
      | (Raise e, it1) => (Raise e, it1)
      | (Ok response, it1) =>
          let it2 := mkPaged (continuation_token it1) true (current_page it1)
                       (path_list it1) (calls it1) in
          let '((token, page), it3) := _extract_data_cb it2 response in
          (Ok page,
           mkPaged token (_did_a_call_already it3) (current_page it3)
             (path_list it3) (calls it3))
      end
  end.

(** Iterating by item: the items of the pages that [n] calls of
    [next_page] give, up to the end of the listing or the first error. *)
Fixpoint items (n : nat) (it : PathPropertiesPaged)
  : list PathProperties * PathPropertiesPaged :=
  match n with
  | O => ([], it)
  | S k =>
      match next_page it with
      | (Ok page, it') => let '(rest, it'') := items k it' in (page ++ rest, it'')
      | (Raise _, it') => ([], it')
      end
  end.

End WithService.

Arguments IsPath {Path PathProperties} p.
Arguments IsPathProperties {Path PathProperties} p.
Arguments mkPaged {Path PathProperties}.
Arguments continuation_token {Path PathProperties}.
Arguments _did_a_call_already {Path PathProperties}.
Arguments current_page {Path PathProperties}.
Arguments path_list {Path PathProperties}.
Arguments calls {Path PathProperties}.
Arguments init {Path PathProperties}.
Arguments _build_item {Path PathProperties}.
Arguments _get_next_cb {Path PathProperties}.
Arguments _extract_data_cb {Path PathProperties}.
Arguments next_page {Path PathProperties}.
Arguments items {Path PathProperties}.

End Paging.

(* ===================================================================== *)
(** ** Long-running operations                                            *)
(* ===================================================================== *)

Module Polling.

(** Modelled from the spec: the poller of azure-core and the polling method
    of the backup client are not among the sources; only the test that
    rehydrates pollers is.  The definitions of this module follow sections 3
    and 4.5 of the specification. *)
Inductive Status : Type := NotStarted | Running | Succeeded | Failed | Canceled.

Definition terminal (s : Status) : bool :=
  match s with
  | Succeeded | Failed | Canceled => true
  | NotStarted | Running => false
  end.

(** Modelled from the spec: the state of one long-running operation as a
    poller holds it: the last known status, the tracking URL and the polling
    interval. *)
Record LROState : Type := mkLRO {
  status : Status;
  tracking_url : string;
  interval : nat
}.

Definition status_tag (s : Status) : ascii :=
  match s with
  | NotStarted => "N"
  | Running => "R"
  | Succeeded => "S"
  | Failed => "F"
  | Canceled => "C"
  end%char.

Definition tag_status (c : ascii) : option Status :=
  if Ascii.eqb c "N" then Some NotStarted
  else if Ascii.eqb c "R" then Some Running
  else if Ascii.eqb c "S" then Some Succeeded
  else if Ascii.eqb c "F" then Some Failed
  else if Ascii.eqb c "C" then Some Canceled
  else None.

(** Modelled from the spec: [continuation_token()] serialises the last
    known status and the tracking URL, which identifies the operation, into
    one string: a status letter followed by the URL. *)
Definition continuation_token (p : LROState) : string :=
  String (status_tag (status p)) (tracking_url p).

(** Modelled from the spec: [resume(token)], the inverse of
    [continuation_token()]; the polling interval is the client's and is
    given anew.  No request is made: a token of a terminal operation gives a
    poller that is terminal at once. *)
Definition resume (tok : string) (interval_ : nat) : option LROState :=
  match tok with
  | String c u =>
      match tag_status c with
      | Some st => Some (mkLRO st u interval_)
      | None => None
      end
  | EmptyString => None
  end.

Section WithService.

(** The service: the status and the payload (the final resource, or the
    reported error) that a GET of the tracking URL returns at a given
    time. *)
Variable service : string -> nat -> Status * string.

(** Modelled from the spec: [poll()], one GET against the tracking URL at
    time [t]. *)
Definition poll (p : LROState) (t : nat) : LROState :=
  mkLRO (fst (service (tracking_url p) t)) (tracking_url p) (interval p).

(** Modelled from the spec: [wait()]: poll every [interval] until the status
    is terminal; a terminal poller polls no more.  The result is the poller
    and the time; [n] bounds the number of polls (the timeout). *)
Fixpoint wait (n : nat) (p : LROState) (t : nat) : LROState * nat :=
  if terminal (status p) then (p, t)
  else match n with
       | O => (p, t)
       | S k => wait k (poll p (t + interval p)) (t + interval p)
       end.

(** Modelled from the spec: [result()]: wait, then read the final payload
    from the tracking URL; nothing when the wait timed out. *)
Definition result (n : nat) (p : LROState) (t : nat) : option (Status * string) :=
  let '(p', t') := wait n p t in
  if terminal (status p')
  then Some (status p', snd (service (tracking_url p') t'))
  else None.

End WithService.

End Polling.

(* ===================================================================== *)
(** ** Facts about the string helpers                                     *)
(* ===================================================================== *)

Module PyStrFacts.

Lemma lower_length s : String.length (lower s) = String.length s.
Proof. induction s as [|c r IH]; simpl; congruence. Qed.

Lemma app_nil (s : string) : "" +:+ s = s.
Proof. reflexivity. Qed.

Lemma app_cons c (r s : string) : String c r +:+ s = String c (r +:+ s).
Proof. reflexivity. Qed.

Lemma append_length (a b : string) :
  String.length (a +:+ b) = String.length a + String.length b.
Proof.
  induction a as [|c r IH]; [reflexivity|].
  rewrite app_cons. simpl. congruence.
Qed.

Lemma endswith_length s p :
  endswith s p = true -> String.length p <= String.length s.
Proof.
  unfold endswith. intros H. apply andb_true_iff in H as [H _].
  now apply Nat.leb_le in H.
Qed.

(** No string ends with a dot followed by a string of its own length. *)
Lemma endswith_dot_same_length s p :
  String.length s = String.length p -> endswith s ("." +:+ p) = false.
Proof.
  intros Hlen. destruct (endswith s ("." +:+ p)) eqn:H; [|reflexivity].
  apply endswith_length in H. rewrite append_length in H. simpl in H. lia.
Qed.

Lemma truthy_true s : truthy s = true <-> s <> "".
Proof.
  unfold truthy. rewrite negb_true_iff. split.
  - intros H Heq. subst. discriminate.
  - intros H. destruct s; [congruence | reflexivity].
Qed.

Lemma truthy_false s : truthy s = false <-> s = "".
Proof.
  unfold truthy. rewrite negb_false_iff. split.
  - intros H. now apply String.eqb_eq in H.
  - intros ->. reflexivity.
Qed.

Lemma endswith_truthy s p : p <> "" -> endswith s p = true -> truthy s = true.
Proof.
  intros Hp H. apply endswith_length in H. apply truthy_true.
  intros ->. destruct p; [congruence | simpl in H; lia].
Qed.

Lemma contains_app_r needle a b :
  contains needle b = true -> contains needle (a +:+ b) = true.
Proof.
  intros H. induction a as [|c r IH]; [exact H|].
  rewrite app_cons. simpl. rewrite IH. apply orb_true_r.
Qed.

End PyStrFacts.

(* ===================================================================== *)
(** ** Facts about the policy                                             *)
(* ===================================================================== *)

Module PolicyFacts.
Import Policy PyStrFacts.
Local Open Scope policy_scope.

(** *** Computations that leave a part of the state alone *)

Section Keeps.

Context {X : Type} (f : State -> X).

(** [m] leaves the component [f] of the state as it found it. *)
Definition keeps {A} (m : M A) : Prop := forall s, f (snd (m s)) = f s.

Lemma keeps_ret {A} (a : A) : keeps (ret a).
Proof. intros s. reflexivity. Qed.

Lemma keeps_raise {A} e : keeps (@raise A e).
Proof. intros s. reflexivity. Qed.

Lemma keeps_lift {A} (r : result A) : keeps (lift r).
Proof. intros s. reflexivity. Qed.

Lemma keeps_get : keeps get.
Proof. intros s. reflexivity. Qed.

Lemma keeps_modify g : (forall s, f (g s) = f s) -> keeps (modify g).
Proof. intros H s. apply H. Qed.

Lemma keeps_bind {A B} (m : M A) (k : A -> M B) :
  keeps m -> (forall a, keeps (k a)) -> keeps (bind m k).
Proof.
  intros Hm Hk s. unfold bind. specialize (Hm s).
  destruct (m s) as [[a|e] s1]; simpl in *.
  - rewrite (Hk a s1). exact Hm.
  - exact Hm.
Qed.

Lemma keeps_except_ValueError {A} (m h : M A) :
  keeps m -> keeps h -> keeps (except_ValueError m h).
Proof.
  intros Hm Hh s. unfold except_ValueError. specialize (Hm s).
  destruct (m s) as [[a|e] s1]; simpl in *; [exact Hm|].
  destruct e; simpl; try exact Hm.
  rewrite (Hh s1). exact Hm.
Qed.

Lemma keeps_except_reraise {A} (m : M A) (h : M unit) :
  keeps m -> keeps h -> keeps (except_reraise m h).
Proof.
  intros Hm Hh s. unfold except_reraise. specialize (Hm s).
  destruct (m s) as [[a|e] s1]; simpl in *; [exact Hm|].
  rewrite (Hh s1). exact Hm.
Qed.

End Keeps.

Create HintDb keeps.
#[local] Hint Resolve keeps_ret keeps_raise keeps_lift keeps_get : keeps.

Ltac keeps_tac :=
  repeat first
    [ progress (eauto with keeps)
    | apply keeps_bind; [|intros ?]
    | apply keeps_except_ValueError
    | apply keeps_except_reraise
    | apply keeps_modify; intros ?; reflexivity
    | match goal with
      | |- keeps _ (match ?x with _ => _ end) => destruct x
      | |- keeps _ (if ?b then _ else _) => destruct b
      end ].

Lemma scope_or_default_truthy c : truthy (scope_or_default c) = true.
Proof.
  unfold scope_or_default, str_or.
  destruct (truthy (get_scope c)) eqn:H; [exact H|].
  apply truthy_true. intros Heq.
  apply (f_equal String.length) in Heq. rewrite append_length in Heq.
  simpl in Heq. lia.
Qed.

(** The scope that the policy asks a token for, read off the parameters of
    the challenge: the [scope] parameter when there is one that is not
    empty, and else the [resource] parameter (nothing when there is none)
    followed by "/.default". *)
Lemma scope_or_default_parameters c scope :
  (_parameters c !! "scope" = Some scope /\ scope <> "")
  \/ ((_parameters c !! "scope" = None \/ _parameters c !! "scope" = Some "")
      /\ scope = default "" (_parameters c !! "resource") +:+ "/.default") ->
  scope_or_default c = scope.
Proof.
  unfold scope_or_default, get_scope, get_resource, str_or.
  intros [[-> Hne] | [[-> | ->] ->]]; simpl; [|reflexivity|reflexivity].
  apply truthy_true in Hne. now rewrite Hne.
Qed.

Lemma is_adfs_suffix t :
  endswith (lower t) "adfs" = true -> is_adfs (Some t) = true.
Proof.
  intros H. unfold is_adfs. rewrite H, andb_true_r.
  apply truthy_true. intros ->. discriminate.
Qed.

Section WithEnv.

Variable E : Env.

(** **** What the parts of the policy leave alone *)

Lemma get_challenge_for_url_keeps {X} (f : State -> X) u :
  keeps f (get_challenge_for_url u).
Proof. unfold get_challenge_for_url. keeps_tac. Qed.

Lemma _enforce_tls_keeps {X} (f : State -> X) request :
  keeps f (_enforce_tls request).
Proof. unfold _enforce_tls. keeps_tac. Qed.

Lemma urlparse_netloc_keeps {X} (f : State -> X) u : keeps f (urlparse_netloc u).
Proof. unfold urlparse_netloc. keeps_tac. Qed.

Lemma verify_resource_keeps {X} (f : State -> X) request scope :
  keeps f (verify_resource E request scope).
Proof.
  unfold verify_resource. pose proof (@urlparse_netloc_keeps X f). keeps_tac.
Qed.

#[local] Hint Resolve get_challenge_for_url_keeps _enforce_tls_keeps
  verify_resource_keeps : keeps.

Lemma on_challenge_try_keeps_sent request response :
  keeps sent (on_challenge_try E request response).
Proof.
  unfold on_challenge_try, _update_challenge, set_challenge_for_url. keeps_tac.
Qed.

Lemma on_challenge_try_keeps_token_requests request response :
  keeps token_requests (on_challenge_try E request response).
Proof.
  unfold on_challenge_try, _update_challenge, set_challenge_for_url. keeps_tac.
Qed.

Lemma on_challenge_try_keeps_request_copy request response :
  keeps _request_copy (on_challenge_try E request response).
Proof.
  unfold on_challenge_try, _update_challenge, set_challenge_for_url. keeps_tac.
Qed.

Lemma call_credential_keeps_sent r : keeps sent (call_credential E r).
Proof. unfold call_credential. keeps_tac. Qed.

#[local] Hint Resolve on_challenge_try_keeps_sent
  on_challenge_try_keeps_token_requests call_credential_keeps_sent : keeps.

Lemma authorize_request_keeps_sent request scope c t :
  keeps sent (authorize_request E request scope c t).
Proof. unfold authorize_request. keeps_tac. Qed.

Lemma _request_kv_token_keeps_sent scope challenge :
  keeps sent (_request_kv_token E scope challenge).
Proof. unfold _request_kv_token. keeps_tac. Qed.

#[local] Hint Resolve authorize_request_keeps_sent
  _request_kv_token_keeps_sent : keeps.

Lemma on_request_keeps_sent request : keeps sent (on_request E request).
Proof. unfold on_request. keeps_tac. Qed.

Lemma on_challenge_keeps_sent request response :
  keeps sent (on_challenge E request response).
Proof. unfold on_challenge. keeps_tac. Qed.

(** **** The verification of the challenge resource *)

(** The verification reads the state and never writes it. *)
Lemma verify_resource_state request scope s :
  snd (verify_resource E request scope s) = s.
Proof. apply (verify_resource_keeps (fun s => s)). Qed.

(** The boolean reading of the verification: it is switched off, or both
    authorities are well bracketed, that of the scope is not empty and the
    request authority ends with a dot followed by it. *)
Definition resource_verified (request_url scope : string) : bool :=
  negb (_verify_challenge_resource E)
  || (netloc_brackets_ok (splitnetloc scope)
      && truthy (splitnetloc scope)
      && netloc_brackets_ok (splitnetloc request_url)
      && endswith (lower (splitnetloc request_url))
           ("." +:+ lower (splitnetloc scope))).

Lemma verify_resource_ok request scope s :
  resource_verified (url (http_request request)) scope = true ->
  verify_resource E request scope s = (Ok tt, s).
Proof.
  unfold resource_verified, verify_resource, urlparse_netloc, bind, ret, raise.
  destruct (_verify_challenge_resource E); simpl; [|reflexivity].
  intros H. repeat (apply andb_true_iff in H as [H ?]).
  repeat match goal with Hx : _ = true |- _ => rewrite Hx; clear Hx end.
  reflexivity.
Qed.

Lemma verify_resource_mismatch request scope s :
  _verify_challenge_resource E = true ->
  netloc_brackets_ok (splitnetloc scope) = true ->
  splitnetloc scope <> "" ->
  netloc_brackets_ok (splitnetloc (url (http_request request))) = true ->
  endswith (lower (splitnetloc (url (http_request request))))
    ("." +:+ lower (splitnetloc scope)) = false ->
  verify_resource E request scope s
  = (Raise (ValueError (mismatch_message (splitnetloc scope))), s).
Proof.
  intros Hv Hb1 Hne Hb2 Hend.
  unfold verify_resource, urlparse_netloc, bind, ret, raise.
  apply truthy_true in Hne. rewrite Hv, Hb1, Hne, Hb2, Hend. reflexivity.
Qed.

(** **** [on_challenge], step by step *)

(** Once the [try] block has produced a challenge and a scope and the
    verification has failed, [on_challenge] fails the same way. *)
Lemma on_challenge_verify_raises request response s challenge scope s1 e :
  on_challenge_try E request response s = (Ok (challenge, scope), s1) ->
  verify_resource E request scope s1 = (Raise e, s1) ->
  on_challenge E request response s = (Raise e, s1).
Proof.
  intros Htry Hver. unfold on_challenge, except_ValueError, bind.
  rewrite Htry. simpl. unfold bind. rewrite Hver. reflexivity.
Qed.

(** An exception of [on_challenge] leaves the challenge flow as it is. *)
Lemma handle_challenge_flow_on_challenge_raises
    request response consecutive_challenge s h c e s1 :
  hdr_get (response_headers response) "WWW-Authenticate" = Some h ->
  _has_claims h = Ok c ->
  consecutive_challenge && negb c = false ->
  on_challenge E request response (set_token None s) = (Raise e, s1) ->
  handle_challenge_flow E request response consecutive_challenge s = (Raise e, s1).
Proof.
  intros Hh Hc Hcons Hoc.
  unfold handle_challenge_flow, handle_challenge_flow_body, bind, modify, lift.
  simpl. rewrite Hh, Hc. simpl. rewrite Hcons, Hoc. reflexivity.
Qed.

(** The tenant that goes into the token request. *)
Definition request_tenant (challenge : HttpChallenge) : option string :=
  if is_adfs (tenant_id challenge) then None else tenant_id challenge.

(** The token request that [on_challenge] makes for a challenge and its
    scope. *)
Definition challenge_token_request (challenge : HttpChallenge) (scope : string)
  : TokenRequest :=
  mkTokenRequest scope (claims challenge) (request_tenant challenge) true
    (has_get_token_info E).

Lemma authorize_request_log request scope c t s :
  token_requests (snd (authorize_request E request scope c t s))
  = token_requests s ++ [mkTokenRequest scope c t true (has_get_token_info E)].
Proof.
  unfold authorize_request, call_credential, bind, modify, lift.
  simpl. destruct (get_token E _); reflexivity.
Qed.

(** Once the [try] block has produced a challenge and a scope and the
    verification has passed, exactly one token request is made. *)
Lemma on_challenge_token_request request response s challenge scope s1 :
  on_challenge_try E request response s = (Ok (challenge, scope), s1) ->
  resource_verified (url (http_request request)) scope = true ->
  token_requests (snd (on_challenge E request response s))
  = token_requests s ++ [challenge_token_request challenge scope].
Proof.
  intros Htry Hver.
  pose proof (on_challenge_try_keeps_token_requests request response s) as Hk.
  rewrite Htry in Hk. simpl in Hk.
  unfold on_challenge, except_ValueError, bind.
  rewrite Htry. simpl. unfold bind.
  rewrite (verify_resource_ok _ _ _ Hver). simpl.
  unfold challenge_token_request, request_tenant.
  set (rq := match _request_copy s1 with
             | Some copy => mkPipelineRequest copy (context_options request)
             | None => request
             end).
  destruct (is_adfs (tenant_id challenge)).
  - pose proof (authorize_request_log rq scope (claims challenge) None s1) as Ha.
    destruct (authorize_request E rq scope (claims challenge) None s1)
      as [[rq'|e] s2]; simpl in *.
    + destruct (_request_copy s1); simpl; congruence.
    + congruence.
  - pose proof (authorize_request_log rq scope (claims challenge)
                  (tenant_id challenge) s1) as Ha.
    destruct (authorize_request E rq scope (claims challenge)
                (tenant_id challenge) s1) as [[rq'|e] s2]; simpl in *.
    + destruct (_request_copy s1); simpl; congruence.
    + congruence.
Qed.


(** The [try] block when a challenge is cached for the authority and the
    new challenge carries claims: the scope and the tenant of the cached
    challenge are written into the new one. *)
Lemma on_challenge_try_carry_forward request response s old challenge c :
  cache s !! cache_key (url (http_request request)) = Some old ->
  HttpChallenge_init E (url (http_request request))
    (hdr_get (response_headers response) "WWW-Authenticate")
    (response_headers response) = Some challenge ->
  claims challenge = Some c ->
  c <> "" ->
  exists s1,
    on_challenge_try E request response s
    = (Ok (mkHttpChallenge
             (<["scope" := scope_or_default old]> (_parameters challenge))
             (Some c) (tenant_id old),
           scope_or_default old), s1).
Proof.
  intros Hcache Hparse Hclaims Hc.
  unfold on_challenge_try, get_challenge_for_url, _update_challenge,
    set_challenge_for_url, bind, get, ret, modify.
  simpl. rewrite Hcache. simpl. rewrite Hparse. simpl.
  rewrite Hclaims. simpl.
  apply truthy_true in Hc. rewrite Hc, scope_or_default_truthy. simpl.
  eexists. f_equal. f_equal. f_equal.
  unfold scope_or_default at 1, get_scope. simpl.
  rewrite lookup_insert_eq. simpl.
  unfold str_or. now rewrite scope_or_default_truthy.
Qed.

(** The [try] block when no challenge is cached for the authority: the
    parsed challenge is cached and used as it is. *)
Lemma on_challenge_try_fresh request response s challenge :
  cache s !! cache_key (url (http_request request)) = None ->
  HttpChallenge_init E (url (http_request request))
    (hdr_get (response_headers response) "WWW-Authenticate")
    (response_headers response) = Some challenge ->
  on_challenge_try E request response s
  = (Ok (challenge, scope_or_default challenge),
     set_cache (<[cache_key (url (http_request request)) := challenge]> (cache s)) s).
Proof.
  intros Hcache Hparse.
  unfold on_challenge_try, get_challenge_for_url, _update_challenge,
    set_challenge_for_url, bind, get, ret, modify.
  simpl. rewrite Hcache. simpl. rewrite Hparse. simpl.
  rewrite andb_false_r. reflexivity.
Qed.

(** The [try] block when the challenge does not parse: the [ValueError] is
    raised with the state as it was. *)
Lemma on_challenge_try_unparsable request response s :
  HttpChallenge_init E (url (http_request request))
    (hdr_get (response_headers response) "WWW-Authenticate")
    (response_headers response) = None ->
  on_challenge_try E request response s = (Raise (ValueError "Invalid challenge"), s).
Proof.
  intros Hparse.
  unfold on_challenge_try, get_challenge_for_url, _update_challenge, bind, get,
    ret, raise.
  simpl. rewrite Hparse. reflexivity.
Qed.

(** *** The claims about [on_request] and [on_challenge] *)

(** C3.  A request whose URL does not start with "https" (whatever the case
    of the letters) fails in [on_request] with the [ServiceRequestError] of
    [_enforce_tls], and so does [send]: the state is the one before the
    call, so no token was asked for, no header was attached and nothing was
    handed to the next policy. *)
Theorem non_tls_request_fails request s :
  startswith (lower (url (http_request request))) "https" = false ->
  on_request E request s = (Raise (ServiceRequestError tls_message), s)
  /\ send E request s = (Raise (ServiceRequestError tls_message), s).
Proof.
  intros H.
  assert (Hreq : on_request E request s
                 = (Raise (ServiceRequestError tls_message), s)).
  { unfold on_request, _enforce_tls, bind, raise. rewrite H. reflexivity. }
  split; [exact Hreq|].
  unfold send, bind. rewrite Hreq. reflexivity.
Qed.

(** C5.  With the verification of the challenge resource switched on, when
    the authority of the scope derived from the challenge is not empty and
    the authority of the request URL does not end with a dot followed by it,
    [on_challenge] raises the [ValueError] of the resource mismatch.  Its
    message tells how to switch the verification off.  No token is asked for
    and nothing is sent. *)
Theorem challenge_resource_mismatch_rejected
    request response s challenge scope s1 :
  _verify_challenge_resource E = true ->
  on_challenge_try E request response s = (Ok (challenge, scope), s1) ->
  netloc_brackets_ok (splitnetloc scope) = true ->
  netloc_brackets_ok (splitnetloc (url (http_request request))) = true ->
  splitnetloc scope <> "" ->
  endswith (lower (splitnetloc (url (http_request request))))
    ("." +:+ lower (splitnetloc scope)) = false ->
  on_challenge E request response s
  = (Raise (ValueError (mismatch_message (splitnetloc scope))), s1)
  /\ contains "verify_challenge_resource=False"
       (mismatch_message (splitnetloc scope)) = true
  /\ token_requests s1 = token_requests s
  /\ sent s1 = sent s.
Proof.
  intros Hv Htry Hb1 Hb2 Hne Hend. repeat split.
  - apply (on_challenge_verify_raises _ _ _ _ _ _ _ Htry).
    now apply verify_resource_mismatch.
  - unfold mismatch_message. do 3 apply contains_app_r. reflexivity.
  - pose proof (on_challenge_try_keeps_token_requests request response s) as Hk.
    now rewrite Htry in Hk.
  - pose proof (on_challenge_try_keeps_sent request response s) as Hk.
    now rewrite Htry in Hk.
Qed.

(** C9.  With the verification switched on, a request whose URL authority
    is exactly the (non-empty) authority of the challenge scope is rejected
    with the resource mismatch error; and whenever the verification lets a
    scope through, the request authority ends with a dot followed by the
    authority of the scope, so it is strictly longer: a subdomain. *)
Theorem exact_authority_match_rejected request response s challenge scope s1 :
  _verify_challenge_resource E = true ->
  on_challenge_try E request response s = (Ok (challenge, scope), s1) ->
  splitnetloc (url (http_request request)) = splitnetloc scope ->
  splitnetloc scope <> "" ->
  netloc_brackets_ok (splitnetloc scope) = true ->
  on_challenge E request response s
  = (Raise (ValueError (mismatch_message (splitnetloc scope))), s1)
  /\ (forall scope' s', verify_resource E request scope' s' = (Ok tt, s') ->
        endswith (lower (splitnetloc (url (http_request request))))
          ("." +:+ lower (splitnetloc scope')) = true
        /\ String.length (splitnetloc scope')
           < String.length (splitnetloc (url (http_request request)))).
Proof.
  intros Hv Htry Heq Hne Hb. split.
  - apply (on_challenge_verify_raises _ _ _ _ _ _ _ Htry).
    apply verify_resource_mismatch; try assumption.
    + now rewrite Heq.
    + rewrite Heq. apply endswith_dot_same_length. reflexivity.
  - intros scope' s'.
    unfold verify_resource, urlparse_netloc, bind, ret, raise. rewrite Hv.
    destruct (netloc_brackets_ok (splitnetloc scope')); [|discriminate].
    destruct (truthy (splitnetloc scope')); simpl; [|discriminate].
    destruct (netloc_brackets_ok (splitnetloc (url (http_request request))));
      [|discriminate].
    destruct (endswith _ _) eqn:Hend; simpl; [|discriminate].
    intros _. split; [reflexivity|].
    apply endswith_length in Hend.
    rewrite append_length, !lower_length in Hend. simpl in Hend. lia.
Qed.

(** C10.  For a challenge whose tenant identifier, in lower case, ends with
    "adfs", the token is asked for without a tenant: by [_request_kv_token]
    with either kind of credential, and by [on_challenge] once its [try]
    block has produced this challenge and the verification has passed. *)
Theorem adfs_suffix_tenant_is_omitted challenge t :
  tenant_id challenge = Some t ->
  endswith (lower t) "adfs" = true ->
  (forall scope s,
     token_requests (snd (_request_kv_token E scope challenge s))
     = token_requests s
       ++ [mkTokenRequest scope None None true (has_get_token_info E)])
  /\ (forall request response s scope s1,
        on_challenge_try E request response s = (Ok (challenge, scope), s1) ->
        resource_verified (url (http_request request)) scope = true ->
        token_requests (snd (on_challenge E request response s))
        = token_requests s
          ++ [mkTokenRequest scope (claims challenge) None true
                (has_get_token_info E)]).
Proof.
  intros Ht Hadfs. apply is_adfs_suffix in Hadfs. rewrite <- Ht in Hadfs. split.
  - intros scope s.
    unfold _request_kv_token, call_credential, bind, modify, lift.
    rewrite Hadfs, andb_false_r.
    destruct (has_get_token_info E); simpl; destruct (get_token E _); reflexivity.
  - intros request response s scope s1 Htry Hver.
    rewrite (on_challenge_token_request _ _ _ _ _ _ Htry Hver).
    unfold challenge_token_request, request_tenant. now rewrite Hadfs.
Qed.

(** C2.  When a challenge is cached for the authority of the request and
    the challenge of the 401 response carries claims (a text that is not
    empty), the token request of
    [on_challenge] is made for the scope of the cached challenge with the
    new claims and with the tenant of the cached challenge, which, as for
    every token request, is left out when it is an AD FS tenant.  The scope
    of the cached challenge is its [scope] parameter when it has one that is
    not empty; when it has none, or an empty one, it is its [resource]
    parameter (nothing when there is none) followed by "/.default".  This
    holds whether or not the new challenge names a scope or resource of its
    own. *)
Theorem claims_challenge_reuses_cached_scope_and_tenant
    request response s old challenge c scope :
  cache s !! cache_key (url (http_request request)) = Some old ->
  HttpChallenge_init E (url (http_request request))
    (hdr_get (response_headers response) "WWW-Authenticate")
    (response_headers response) = Some challenge ->
  claims challenge = Some c ->
  c <> "" ->
  (_parameters old !! "scope" = Some scope /\ scope <> "")
  \/ ((_parameters old !! "scope" = None \/ _parameters old !! "scope" = Some "")
      /\ scope = default "" (_parameters old !! "resource") +:+ "/.default") ->
  resource_verified (url (http_request request)) scope = true ->
  token_requests (snd (on_challenge E request response s))
  = token_requests s
    ++ [mkTokenRequest scope (Some c)
          (if is_adfs (tenant_id old) then None else tenant_id old) true
          (has_get_token_info E)].
Proof.
  intros Hcache Hparse Hclaims Hc Hscope Hver.
  apply scope_or_default_parameters in Hscope.
  destruct (on_challenge_try_carry_forward _ _ _ _ _ _ Hcache Hparse Hclaims Hc)
    as [s1 Htry].
  rewrite Hscope in Htry.
  rewrite (on_challenge_token_request _ _ _ _ _ _ Htry Hver). reflexivity.
Qed.


(** *** The challenge flow *)

(** The answer of the next policy is a 401 whose challenge header does, or
    does not, carry claims. *)
Definition challenge_401 (r : result HttpResponse) (with_claims : bool) : Prop :=
  exists response h,
    r = Ok response
    /\ status_code response = 401%Z
    /\ hdr_get (response_headers response) "WWW-Authenticate" = Some h
    /\ _has_claims h = Ok with_claims.

(** An activation entered with [consecutive_challenge=True] never calls
    itself: it sends nothing and returns the response it was given, or it
    sends one request, after a challenge with claims, and returns the answer
    to it. *)
Lemma handle_challenge_flow_body_consecutive recur request response s :
  let r := handle_challenge_flow_body E recur request response true s in
  (sent (snd r) = sent s /\ (forall x, fst r = Ok x -> x = response))
  \/ (exists q h,
        sent (snd r) = sent s ++ [q]
        /\ hdr_get (response_headers response) "WWW-Authenticate" = Some h
        /\ _has_claims h = Ok true
        /\ (forall x, fst r = Ok x -> responses E (length (sent s)) = Ok x)).
Proof.
  unfold handle_challenge_flow_body, bind, modify, lift. simpl.
  destruct (hdr_get (response_headers response) "WWW-Authenticate") as [h|];
    [|left; split; [reflexivity | intros x [= <-]; reflexivity]].
  destruct (_has_claims h) as [c|e] eqn:Hc; simpl;
    [|left; split; [reflexivity | discriminate]].
  destruct c; simpl;
    [|left; split; [reflexivity | intros x [= <-]; reflexivity]].
  pose proof (on_challenge_keeps_sent request response (set_token None s)) as Hk.
  destruct (on_challenge E request response (set_token None s))
    as [[[b rq]|e] s1]; simpl in Hk |- *;
    [|left; split; [exact Hk | discriminate]].
  destruct b; [|left; split; [exact Hk | intros x [= <-]; reflexivity]].
  unfold except_reraise, next_send, on_exception, on_response, ret. simpl.
  right. exists (http_request rq), h.
  destruct (responses E (length (sent s1))) as [x|e] eqn:Hr; simpl.
  - rewrite andb_false_r. simpl. rewrite Hk.
    repeat split; try reflexivity; try assumption.
    intros x0 [= <-]. now rewrite <- Hk.
  - rewrite Hk. repeat split; try reflexivity; try assumption. discriminate.
Qed.

(** So the function that [handle_challenge_flow] passes for the nested
    recursive call is never called, and [handle_challenge_flow] satisfies
    the recursive equation of the source. *)
Lemma handle_challenge_flow_body_consecutive_recur r1 r2 request response s :
  handle_challenge_flow_body E r1 request response true s
  = handle_challenge_flow_body E r2 request response true s.
Proof.
  unfold handle_challenge_flow_body, bind, modify, lift. simpl.
  destruct (hdr_get _ _); [|reflexivity].
  destruct (_has_claims _) as [c|e]; simpl; [|reflexivity].
  destruct c; simpl; [|reflexivity].
  destruct (on_challenge _ _ _ _) as [[[b rq]|e] s1]; simpl; [|reflexivity].
  destruct b; [|reflexivity].
  destruct (except_reraise _ _ _) as [[x|e] s2]; simpl; [|reflexivity].
  rewrite andb_false_r. reflexivity.
Qed.

Lemma handle_challenge_flow_body_ext r1 r2 request response c s :
  (forall rq rs s', r1 rq rs s' = r2 rq rs s') ->
  handle_challenge_flow_body E r1 request response c s
  = handle_challenge_flow_body E r2 request response c s.
Proof.
  intros Hext.
  unfold handle_challenge_flow_body, bind, modify, lift. simpl.
  destruct (hdr_get _ _); [|reflexivity].
  destruct (_has_claims _) as [cc|e]; simpl; [|reflexivity].
  destruct (c && negb cc); [reflexivity|].
  destruct (on_challenge _ _ _ _) as [[[b rq]|e] s1]; simpl; [|reflexivity].
  destruct b; [|reflexivity].
  destruct (except_reraise _ _ _) as [[x|e] s2]; simpl; [|reflexivity].
  destruct (_ && negb c); [|reflexivity].
  destruct (negb cc); [apply Hext | reflexivity].
Qed.

Lemma handle_challenge_flow_unfold request response consecutive_challenge s :
  handle_challenge_flow E request response consecutive_challenge s
  = handle_challenge_flow_body E
      (fun request response => handle_challenge_flow E request response true)
      request response consecutive_challenge s.
Proof.
  unfold handle_challenge_flow at 1.
  apply handle_challenge_flow_body_ext. intros rq rs s'.
  unfold handle_challenge_flow.
  apply handle_challenge_flow_body_consecutive_recur.
Qed.

(** An activation entered with [consecutive_challenge=False]: nothing is
    sent; or one request is sent and its answer is the outcome; or one
    request is sent after a challenge without claims, the answer is a 401
    again, and the outcome is that of the recursive call. *)
Lemma handle_challenge_flow_body_first recur request response s :
  let r := handle_challenge_flow_body E recur request response false s in
  (sent (snd r) = sent s /\ (forall x, fst r = Ok x -> x = response))
  \/ (exists q,
        sent (snd r) = sent s ++ [q]
        /\ (forall x, fst r = Ok x -> responses E (length (sent s)) = Ok x))
  \/ (exists q h rq response1 s1,
        sent s1 = sent s ++ [q]
        /\ hdr_get (response_headers response) "WWW-Authenticate" = Some h
        /\ _has_claims h = Ok false
        /\ responses E (length (sent s)) = Ok response1
        /\ status_code response1 = 401%Z
        /\ r = recur rq response1 s1).
Proof.
  unfold handle_challenge_flow_body, bind, modify, lift. simpl.
  destruct (hdr_get (response_headers response) "WWW-Authenticate") as [h|];
    [|left; split; [reflexivity | intros x [= <-]; reflexivity]].
  destruct (_has_claims h) as [c|e] eqn:Hc; simpl;
    [|left; split; [reflexivity | discriminate]].
  pose proof (on_challenge_keeps_sent request response (set_token None s)) as Hk.
  destruct (on_challenge E request response (set_token None s))
    as [[[b rq]|e] s1]; simpl in Hk |- *;
    [|left; split; [exact Hk | discriminate]].
  destruct b; [|left; split; [exact Hk | intros x [= <-]; reflexivity]].
  unfold except_reraise, next_send, on_exception, on_response, ret. simpl.
  right.
  destruct (responses E (length (sent s1))) as [x|e] eqn:Hr; simpl.
  - rewrite andb_true_r.
    destruct (status_code x =? 401)%Z eqn:Hst; simpl.
    + destruct c; simpl.
      * left. exists (http_request rq). rewrite Hk. split; [reflexivity|].
        intros x0 [= <-]. now rewrite <- Hk.
      * right. exists (http_request rq), h.
        exists (mkPipelineRequest (http_request rq)
                  (delete "insecure_domain_change" (context_options rq))),
          x, (log_sent (http_request rq) s1).
        simpl. rewrite Hk in *.
        repeat split; try reflexivity; try assumption.
        now apply Z.eqb_eq.
    + left. exists (http_request rq). rewrite Hk. split; [reflexivity|].
      intros x0 [= <-]. now rewrite <- Hk.
  - left. exists (http_request rq). rewrite Hk. split; [reflexivity|].
    discriminate.
Qed.


(** What [send] hands to the next policy, and what it returns. *)
Lemma send_shape request s res s' :
  send E request s = (res, s') ->
  exists qs,
    sent s' = sent s ++ qs
    /\ length qs <= 3
    /\ (forall response, res = Ok response ->
          exists k, length qs = S k
                    /\ responses E (length (sent s) + k) = Ok response)
    /\ (length qs = 3 ->
          challenge_401 (responses E (length (sent s))) false
          /\ challenge_401 (responses E (S (length (sent s)))) true).
Proof.
  unfold send, bind. intros Hsend.
  pose proof (on_request_keeps_sent request s) as Hk.
  destruct (on_request E request s) as [[rq|e] s0]; simpl in Hk.
  2:{ injection Hsend as <- <-. exists []. rewrite app_nil_r.
      repeat split; simpl; try lia; try easy. }
  unfold except_reraise, next_send, on_exception, on_response, ret in Hsend.
  simpl in Hsend. rewrite Hk in Hsend.
  destruct (responses E (length (sent s))) as [r1|e] eqn:Hr1; simpl in Hsend.
  2:{ injection Hsend as <- <-. exists [http_request rq]. simpl. rewrite Hk.
      repeat split; simpl; try lia; try easy. }
  destruct (status_code r1 =? 401)%Z eqn:Hst.
  2:{ injection Hsend as <- <-. exists [http_request rq]. simpl. rewrite Hk.
      repeat split; simpl; try lia; try easy.
      intros response [= <-]. exists 0. now rewrite Nat.add_0_r. }
  apply Z.eqb_eq in Hst.
  remember (log_sent (http_request rq) s0) as s1 eqn:Es1.
  assert (Hs1 : sent s1 = sent s ++ [http_request rq])
    by (rewrite Es1; simpl; now rewrite Hk).
  clear Es1.
  assert (Hl1 : length (sent s1) = S (length (sent s)))
    by (rewrite Hs1, length_app; simpl; lia).
  unfold handle_challenge_flow in Hsend.
  pose proof (handle_challenge_flow_body_first
                (fun request response =>
                   handle_challenge_flow_body E (fun _ response => ret response)
                     request response true) rq r1 s1) as Hfirst.
  cbv zeta in Hfirst. rewrite Hsend in Hfirst. cbn [fst snd] in Hfirst.
  destruct Hfirst as [[Hsent Hres] | [(q & Hsent & Hres)
                       | (q & h & rq2 & r2 & s2 & Hs2 & Hh & Hc & Hr2 & Hst2 & Hrec)]].
  - exists [http_request rq]. rewrite Hsent, Hs1.
    repeat split; simpl; try lia; try easy.
    intros response ->. exists 0. rewrite Nat.add_0_r.
    now rewrite (Hres _ eq_refl).
  - exists [http_request rq; q]. rewrite Hsent, Hs1, <- app_assoc.
    repeat split; simpl; try lia; try easy.
    intros response ->. exists 1. split; [reflexivity|].
    rewrite Nat.add_1_r, <- Hl1. now apply Hres.
  - rewrite Hl1 in Hr2.
    assert (Hl2 : length (sent s2) = S (S (length (sent s))))
      by (rewrite Hs2, length_app, Hl1; simpl; lia).
    pose proof (handle_challenge_flow_body_consecutive
                  (fun _ response => ret response) rq2 r2 s2) as Hcons.
    cbv zeta in Hcons. rewrite <- Hrec in Hcons. cbn [fst snd] in Hcons.
    destruct Hcons as [[Hsent Hres]
                      | (q' & h2 & Hsent & Hh2 & Hc2 & Hres)].
    + exists [http_request rq; q]. rewrite Hsent, Hs2, Hs1, <- app_assoc.
      repeat split; simpl; try lia; try easy.
      intros response ->. exists 1. split; [reflexivity|].
      rewrite Nat.add_1_r. now rewrite (Hres _ eq_refl).
    + exists [http_request rq; q; q'].
      rewrite Hsent, Hs2, Hs1, <- !app_assoc.
      repeat split; simpl; try lia; try easy.
      * intros response ->. exists 2. split; [reflexivity|].
        replace (length (sent s) + 2) with (S (S (length (sent s)))) by lia.
        rewrite <- Hl2. now apply Hres.
      * exists r1, h. easy.
      * exists r2, h2. easy.
Qed.

(** C1 (amended).  Whatever the request, the state and the answers of the
    next policy: [send] hands at most three requests to the next policy,
    that is, it authenticates again at most twice; when it returns a
    response, this is the answer to the last request it sent, as it was
    received; and a third request is sent only when the first answer is a
    401 whose challenge carries no claims and the second a 401 whose
    challenge carries claims.  So after a first 401 with claims at most two
    requests are sent. *)
Theorem at_most_two_reauthentications request s :
  exists qs,
    sent (snd (send E request s)) = sent s ++ qs
    /\ length qs <= 3
    /\ (forall response, fst (send E request s) = Ok response ->
          exists k, length qs = S k
                    /\ responses E (length (sent s) + k) = Ok response)
    /\ (length qs = 3 ->
          challenge_401 (responses E (length (sent s))) false
          /\ challenge_401 (responses E (S (length (sent s)))) true)
    /\ (challenge_401 (responses E (length (sent s))) true -> length qs <= 2).
Proof.
  destruct (send E request s) as [res s'] eqn:Hsend.
  destruct (send_shape _ _ _ _ Hsend) as (qs & Hsent & Hlen & Hres & Hthree).
  exists qs. simpl. repeat split; try assumption.
  - now apply Hthree.
  - now apply Hthree.
  - intros (r & h & Hr & _ & Hh & Hc).
    destruct (Nat.eq_dec (length qs) 3) as [H3|H3]; [|lia].
    destruct (Hthree H3) as [(r' & h' & Hr' & _ & Hh' & Hc') _].
    rewrite Hr in Hr'. injection Hr' as <-. rewrite Hh in Hh'.
    injection Hh' as <-. rewrite Hc in Hc'. discriminate.
Qed.

(** C6 (amended).  When the header of a 401 response has a parameter part
    (so that [_has_claims] can read it) and does not parse as a challenge,
    the challenge flow raises nothing: it returns the response it was given.
    Only the cached token is dropped; no token is asked for and nothing is
    sent. *)
Theorem unparsable_challenge_returns_the_response
    request response consecutive_challenge s h c :
  hdr_get (response_headers response) "WWW-Authenticate" = Some h ->
  _has_claims h = Ok c ->
  HttpChallenge_init E (url (http_request request)) (Some h)
    (response_headers response) = None ->
  handle_challenge_flow E request response consecutive_challenge s
  = (Ok response, set_token None s).
Proof.
  intros Hh Hc Hparse.
  unfold handle_challenge_flow, handle_challenge_flow_body, bind, modify, lift.
  simpl. rewrite Hh, Hc. simpl.
  destruct (consecutive_challenge && negb c); [reflexivity|].
  unfold on_challenge, except_ValueError, bind.
  rewrite on_challenge_try_unparsable by (now rewrite Hh).
  reflexivity.
Qed.


(** *** The discovery of the challenge *)

(** [on_request] when no challenge is cached for the authority: the request
    that goes out has no body, the URL of the original and, as far as
    [Authorization] goes, the headers of the original. *)
Lemma on_request_discovery request s :
  startswith (lower (url (http_request request))) "https" = true ->
  cache s !! cache_key (url (http_request request)) = None ->
  exists rq s0,
    on_request E request s = (Ok rq, s0)
    /\ url (http_request rq) = url (http_request request)
    /\ opt_truthy (content (http_request rq)) = false
    /\ hdr_get (headers (http_request rq)) "Authorization"
       = hdr_get (headers (http_request request)) "Authorization"
    /\ cache s0 = cache s
    /\ sent s0 = sent s
    /\ token_requests s0 = token_requests s.
Proof.
  intros Htls Hcache.
  unfold on_request, _enforce_tls, get_challenge_for_url, bind, get, ret, modify.
  rewrite Htls. simpl. rewrite Hcache.
  destruct (opt_truthy (content (http_request request))) eqn:Hbody.
  - eexists _, _. split; [reflexivity|]. simpl. repeat split.
    unfold hdr_get, hdr_set. now rewrite lookup_insert_ne.
  - eexists _, _. split; [reflexivity|]. now repeat split.
Qed.

(** [on_challenge] when the [try] block has produced a challenge and a
    scope, the verification has passed and the credential has given a token:
    the request is authorized with that token. *)
Lemma on_challenge_authorized request response s challenge scope s1 tok :
  on_challenge_try E request response s = (Ok (challenge, scope), s1) ->
  resource_verified (url (http_request request)) scope = true ->
  get_token E (challenge_token_request challenge scope) = Ok tok ->
  exists rq s2,
    on_challenge E request response s = (Ok (true, rq), s2)
    /\ hdr_get (headers (http_request rq)) "Authorization"
       = Some ("Bearer " +:+ token tok).
Proof.
  intros Htry Hver Htok.
  unfold on_challenge, except_ValueError, bind.
  rewrite Htry. simpl. unfold bind.
  rewrite (verify_resource_ok _ _ _ Hver). simpl.
  unfold challenge_token_request, request_tenant in Htok.
  unfold authorize_request, call_credential, bind, modify, lift, ret.
  destruct (is_adfs (tenant_id challenge)); simpl; rewrite Htok; simpl;
    destruct (_request_copy s1); simpl; eexists _, _;
    (split; [reflexivity|]); simpl; unfold hdr_get, hdr_set;
    now rewrite lookup_insert_eq.
Qed.

(** C4 (amended).  No challenge is cached for the authority of the request,
    the URL is an https one and the caller has put no [Authorization] header
    on the request.  The first answer is a 401 with a challenge without
    claims that parses, whose scope passes the verification and for which
    the credential gives a token; the second answer is a 200.  Then [send]
    returns the second answer and exactly two requests have gone out: the
    first without a body and without [Authorization], the second with the
    bearer token in [Authorization]. *)
Theorem discovery_challenge_then_success
    request s r1 h challenge tok r2 :
  cache s !! cache_key (url (http_request request)) = None ->
  startswith (lower (url (http_request request))) "https" = true ->
  hdr_get (headers (http_request request)) "Authorization" = None ->
  responses E (length (sent s)) = Ok r1 ->
  status_code r1 = 401%Z ->
  hdr_get (response_headers r1) "WWW-Authenticate" = Some h ->
  _has_claims h = Ok false ->
  HttpChallenge_init E (url (http_request request)) (Some h)
    (response_headers r1) = Some challenge ->
  resource_verified (url (http_request request)) (scope_or_default challenge)
  = true ->
  get_token E (challenge_token_request challenge (scope_or_default challenge))
  = Ok tok ->
  responses E (S (length (sent s))) = Ok r2 ->
  status_code r2 = 200%Z ->
  exists q1 q2 s',
    send E request s = (Ok r2, s')
    /\ sent s' = sent s ++ [q1; q2]
    /\ opt_truthy (content q1) = false
    /\ hdr_get (headers q1) "Authorization" = None
    /\ hdr_get (headers q2) "Authorization" = Some ("Bearer " +:+ token tok).
Proof.
  intros Hcache Htls Hnoauth Hr1 Hst1 Hh Hc Hparse Hver Htok Hr2 Hst2.
  destruct (on_request_discovery request s Htls Hcache)
    as (rq & s0 & Hreq & Hurl & Hbody & Hauth & Hcache0 & Hsent0 & _).
  unfold send, bind. rewrite Hreq.
  unfold except_reraise, next_send, on_exception, on_response, ret.
  cbn [fst snd]. rewrite Hsent0, Hr1. cbn [fst snd]. rewrite Hst1.
  change (401 =? 401)%Z with true. cbv iota.
  remember (log_sent (http_request rq) s0) as s1 eqn:Es1.
  assert (Hsent1 : sent s1 = sent s ++ [http_request rq])
    by (rewrite Es1; simpl; now rewrite Hsent0).
  assert (Hcache1 : cache (set_token None s1) = cache s)
    by (rewrite Es1; simpl; exact Hcache0).
  assert (Htry : on_challenge_try E rq r1 (set_token None s1)
                 = (Ok (challenge, scope_or_default challenge),
                    set_cache (<[cache_key (url (http_request rq)) := challenge]>
                                 (cache (set_token None s1)))
                      (set_token None s1))).
  { apply on_challenge_try_fresh.
    - now rewrite Hcache1, Hurl.
    - now rewrite Hurl, Hh. }
  rewrite <- Hurl in Hver.
  destruct (on_challenge_authorized _ _ _ _ _ _ _ Htry Hver Htok)
    as (rq2 & s2 & Hoc & Hbearer).
  pose proof (on_challenge_keeps_sent rq r1 (set_token None s1)) as Hk.
  rewrite Hoc in Hk. cbn [snd] in Hk.
  assert (Hsent2 : sent s2 = sent s ++ [http_request rq])
    by (rewrite Hk; simpl; exact Hsent1).
  unfold handle_challenge_flow, handle_challenge_flow_body, bind, modify, lift.
  cbn [fst snd]. rewrite Hh, Hc. cbn [negb andb]. rewrite Hoc.
  unfold except_reraise, next_send, on_exception, on_response, ret.
  cbn [fst snd http_request]. rewrite Hsent2, length_app, Nat.add_1_r.
  cbn [length]. rewrite Hr2. cbn [fst snd]. rewrite Hst2.
  change (200 =? 401)%Z with false. cbn [andb].
  exists (http_request rq), (http_request rq2). eexists. split; [reflexivity|].
  cbn [sent log_sent]. rewrite Hsent2, <- app_assoc.
  repeat split; try assumption.
  now rewrite Hauth.
Qed.

End WithEnv.

End PolicyFacts.

(* ===================================================================== *)
(** ** The policy at work                                                 *)
(* ===================================================================== *)

Module Scenarios.
Import Policy Sample PolicyFacts.

Definition vault : string := "https://vault.example.net/keys".

Definition discovery_401 : HttpResponse := response 401 (Some kv_challenge) "discovery".
Definition ok_200 : HttpResponse := response 200 None "ok".
Definition claims_401 (c : string) : HttpResponse :=
  response 401 (Some (cae_challenge c)) c.

(** A vault that answers the discovery, then the authorized request, and
    then three times in a row with a claims challenge. *)
Definition history : Env :=
  env true false
    [discovery_401; ok_200; claims_401 "c1"; claims_401 "c2"; claims_401 "c3"].

(** The state after a first request, without a body, has gone through. *)
Definition authenticated : State :=
  Eval vm_compute in snd (send history (request vault None) state0).

(** A vault that answers the discovery, then a claims challenge, then a
    further 401, and would then accept. *)
Definition step_up : Env :=
  env true false [discovery_401; claims_401 "c2"; claims_401 "c3"; ok_200].

(** The discovery followed by one claims challenge: the third answer is the
    one returned and the fourth is never asked for. *)
Example three_requests_are_reached :
  fst (send step_up (request vault (Some "body")) state0) = Ok (claims_401 "c3")
  /\ length (sent (snd (send step_up (request vault (Some "body")) state0))) = 3.
Proof. vm_compute. split; reflexivity. Qed.

(** C1, as stated, fails: to an authenticated policy the vault answers
    three times with a 401 whose challenge carries claims.  [send] returns
    the second of them, which is not the third, after two requests; the
    third answer is never asked for. *)
Lemma second_claims_challenge_is_returned :
  challenge_401 (responses history (length (sent authenticated))) true
  /\ challenge_401 (responses history (length (sent authenticated) + 1)) true
  /\ challenge_401 (responses history (length (sent authenticated) + 2)) true
  /\ fst (send history (request vault None) authenticated) = Ok (claims_401 "c2")
  /\ responses history (length (sent authenticated) + 2) = Ok (claims_401 "c3")
  /\ claims_401 "c2" <> claims_401 "c3"
  /\ length (sent (snd (send history (request vault None) authenticated)))
     = length (sent authenticated) + 2.
Proof.
  split; [|split; [|split; [|split; [|split; [|split]]]]].
  - exists (claims_401 "c1"), (cae_challenge "c1"). vm_compute. repeat split.
  - exists (claims_401 "c2"), (cae_challenge "c2"). vm_compute. repeat split.
  - exists (claims_401 "c3"), (cae_challenge "c3"). vm_compute. repeat split.
  - vm_compute. reflexivity.
  - vm_compute. reflexivity.
  - intros H. apply (f_equal body) in H. discriminate H.
  - vm_compute. reflexivity.
Qed.

(** C3 at work: a plain http URL. *)
Lemma non_tls_request_fails_witness :
  startswith (lower (url (http_request (request "http://vault.example.net/keys" None))))
    "https" = false
  /\ on_request history (request "http://vault.example.net/keys" None) state0
     = (Raise (ServiceRequestError tls_message), state0)
  /\ send history (request "http://vault.example.net/keys" None) state0
     = (Raise (ServiceRequestError tls_message), state0).
Proof.
  split; [reflexivity|].
  apply (non_tls_request_fails history). reflexivity.
Defined.


(** The challenge that the discovery leaves in the cache. *)
Definition cached_kv_challenge : HttpChallenge :=
  Eval vm_compute in
    default (mkHttpChallenge ∅ None None)
      (parse_challenge vault (Some kv_challenge) ∅).

Definition parsed_cae_challenge : HttpChallenge :=
  Eval vm_compute in
    default (mkHttpChallenge ∅ None None)
      (parse_challenge vault (Some (cae_challenge "c1")) ∅).

(** C2 at work: the claims challenge that follows the discovery.  The
    cached challenge names the resource [https://example.net] and no scope,
    and the token is asked for [https://example.net/.default]. *)
Lemma claims_challenge_reuses_cached_scope_witness :
  _parameters cached_kv_challenge !! "scope" = None
  /\ _parameters cached_kv_challenge !! "resource" = Some "https://example.net"
  /\ token_requests
       (snd (on_challenge history (request vault None) (claims_401 "c1")
               authenticated))
     = token_requests authenticated
       ++ [mkTokenRequest "https://example.net/.default" (Some "c1")
             (if is_adfs (tenant_id cached_kv_challenge) then None
              else tenant_id cached_kv_challenge)
             true (has_get_token_info history)].
Proof.
  split; [vm_compute; reflexivity|]. split; [vm_compute; reflexivity|].
  apply (claims_challenge_reuses_cached_scope_and_tenant history
           (request vault None) (claims_401 "c1") authenticated
           cached_kv_challenge parsed_cae_challenge "c1"
           "https://example.net/.default").
  - vm_compute; reflexivity.
  - vm_compute; reflexivity.
  - vm_compute; reflexivity.
  - discriminate.
  - right. split; [left|]; vm_compute; reflexivity.
  - vm_compute; reflexivity.
Defined.

(** The token request of that witness, spelled out. *)
Example claims_challenge_token_request :
  token_requests
    (snd (on_challenge history (request vault None) (claims_401 "c1") authenticated))
  = [mkTokenRequest "https://example.net/.default" None (Some "tenant-1") true false;
     mkTokenRequest "https://example.net/.default" (Some "c1") (Some "tenant-1")
       true false].
Proof. vm_compute. reflexivity. Qed.

(** C4 at work: the discovery with a body to send. *)
Lemma discovery_challenge_then_success_witness :
  exists q1 q2 s',
    send history (request vault (Some "body")) state0 = (Ok ok_200, s')
    /\ sent s' = sent state0 ++ [q1; q2]
    /\ opt_truthy (content q1) = false
    /\ hdr_get (headers q1) "Authorization" = None
    /\ hdr_get (headers q2) "Authorization"
       = Some ("Bearer "
               +:+ token (mkAccessToken
                            "token:https://example.net/.default:tenant-1:"
                            3600 None)).
Proof.
  apply (discovery_challenge_then_success history (request vault (Some "body"))
           state0 discovery_401 kv_challenge cached_kv_challenge);
    vm_compute; reflexivity.
Defined.

(** C4, as stated, fails: the caller has put an [Authorization] header on
    the request.  The request that goes out first, without the body, keeps
    the headers of the caller, so the header is on the first request as it
    is on the second. *)
Lemma probe_keeps_the_headers_of_the_caller :
  cache state0 !! cache_key vault = None
  /\ responses history 0 = Ok discovery_401
  /\ _has_claims kv_challenge = Ok false
  /\ responses history 1 = Ok ok_200
  /\ exists q1 q2 s',
       send history
         (mkPipelineRequest
            (mkHttpRequest "POST" vault
               (hdr_set ∅ "Authorization"
                  "Bearer token:https://example.net/.default:tenant-1:")
               (Some "body")) ∅)
         state0 = (Ok ok_200, s')
       /\ sent s' = [q1; q2]
       /\ hdr_get (headers q1) "Authorization"
          = Some "Bearer token:https://example.net/.default:tenant-1:"
       /\ hdr_get (headers q2) "Authorization"
          = Some "Bearer token:https://example.net/.default:tenant-1:".
Proof.
  split; [reflexivity|]. split; [reflexivity|].
  split; [vm_compute; reflexivity|]. split; [reflexivity|].
  eexists _, _, _. split; [vm_compute; reflexivity|].
  split; [reflexivity|]. split; vm_compute; reflexivity.
Qed.

(** C5 at work: the challenge names [example.net] and the request goes to
    [vault.other.net]. *)
Lemma challenge_resource_mismatch_witness :
  exists challenge scope s1,
    on_challenge_try history (request "https://vault.other.net/keys" None)
      discovery_401 state0 = (Ok (challenge, scope), s1)
    /\ on_challenge history (request "https://vault.other.net/keys" None)
         discovery_401 state0
       = (Raise (ValueError (mismatch_message (splitnetloc scope))), s1)
    /\ contains "verify_challenge_resource=False"
         (mismatch_message (splitnetloc scope)) = true
    /\ token_requests s1 = token_requests state0
    /\ sent s1 = sent state0.
Proof.
  exists cached_kv_challenge, (scope_or_default cached_kv_challenge),
    (set_cache (<["vault.other.net" := cached_kv_challenge]> (cache state0)) state0).
  split; [vm_compute; reflexivity|].
  apply (challenge_resource_mismatch_rejected history
           (request "https://vault.other.net/keys" None) discovery_401 state0
           cached_kv_challenge);
    try (vm_compute; reflexivity).
  discriminate.
Defined.

(** C9 at work: the challenge names [example.net] and the request goes to
    [example.net] itself. *)
Lemma exact_authority_match_witness :
  exists challenge scope s1,
    on_challenge_try history (request "https://example.net/keys" None)
      discovery_401 state0 = (Ok (challenge, scope), s1)
    /\ splitnetloc "https://example.net/keys" = splitnetloc scope
    /\ on_challenge history (request "https://example.net/keys" None)
         discovery_401 state0
       = (Raise (ValueError (mismatch_message (splitnetloc scope))), s1).
Proof.
  exists cached_kv_challenge, (scope_or_default cached_kv_challenge),
    (set_cache (<["example.net" := cached_kv_challenge]> (cache state0)) state0).
  split; [vm_compute; reflexivity|].
  split; [vm_compute; reflexivity|].
  apply (exact_authority_match_rejected history
           (request "https://example.net/keys" None) discovery_401 state0
           cached_kv_challenge);
    try (vm_compute; reflexivity).
  discriminate.
Defined.

(** The same two requests through [send]: the discovery request goes out,
    the challenge is refused, and the caller gets the error; no token was
    asked for. *)
Example mismatch_fails_the_request :
  fst (send history (request "https://vault.other.net/keys" (Some "body")) state0)
  = Raise (ValueError (mismatch_message "example.net"))
  /\ fst (send history (request "https://example.net/keys" (Some "body")) state0)
     = Raise (ValueError (mismatch_message "example.net"))
  /\ token_requests
       (snd (send history (request "https://example.net/keys" (Some "body")) state0))
     = []
  /\ length (sent (snd (send history (request "https://example.net/keys" (Some "body"))
                          state0))) = 1.
Proof. repeat split; vm_compute; reflexivity. Qed.

(** A subdomain of the authority of the scope passes. *)
Example subdomain_passes :
  resource_verified history vault "https://example.net/.default" = true.
Proof. vm_compute. reflexivity. Qed.

Definition garbage_401 : HttpResponse := response 401 (Some "Bearer garbage") "r1".

(** C6 at work: a header with nothing to read after the scheme. *)
Lemma unparsable_challenge_witness :
  handle_challenge_flow history (request vault None) garbage_401 false state0
  = (Ok garbage_401, set_token None state0).
Proof.
  apply (unparsable_challenge_returns_the_response history (request vault None)
           garbage_401 false state0 "Bearer garbage" false);
    vm_compute; reflexivity.
Defined.

(** C6, as stated, fails: the challenge does not parse, and [send] raises
    nothing; it returns the 401 response. *)
Lemma unparsable_challenge_raises_nothing :
  parse_challenge vault (Some "Bearer garbage") (response_headers garbage_401) = None
  /\ fst (send (env true false [garbage_401; ok_200]) (request vault (Some "body")) state0)
     = Ok garbage_401
  /\ forall e,
       fst (send (env true false [garbage_401; ok_200]) (request vault (Some "body")) state0)
       <> Raise e.
Proof.
  split; [vm_compute; reflexivity|].
  assert (H : fst (send (env true false [garbage_401; ok_200])
                     (request vault (Some "body")) state0) = Ok garbage_401)
    by (vm_compute; reflexivity).
  split; [exact H|]. intros e. rewrite H. discriminate.
Qed.

(** An AD FS challenge whose tenant is not "adfs" itself. *)
Definition adfs_challenge : HttpChallenge :=
  mkHttpChallenge (<["resource" := "https://example.net"]> ∅) None
    (Some "Contoso-ADFS").

(** C10 at work: the tenant "Contoso-ADFS". *)
Lemma adfs_suffix_tenant_witness :
  (forall scope s,
     token_requests (snd (_request_kv_token history scope adfs_challenge s))
     = token_requests s
       ++ [mkTokenRequest scope None None true (has_get_token_info history)])
  /\ (forall request response s scope s1,
        on_challenge_try history request response s
        = (Ok (adfs_challenge, scope), s1) ->
        resource_verified history (url (http_request request)) scope = true ->
        token_requests (snd (on_challenge history request response s))
        = token_requests s
          ++ [mkTokenRequest scope (claims adfs_challenge) None true
                (has_get_token_info history)]).
Proof.
  apply (adfs_suffix_tenant_is_omitted history adfs_challenge "Contoso-ADFS");
    reflexivity.
Defined.

(** The cached path of [on_request] with that tenant: the token is asked
    for without a tenant, by [get_token] and by [get_token_info]. *)
Example adfs_tenant_on_request :
  token_requests
    (snd (on_request (env true false []) (request vault None)
            (mkState None None (<[cache_key vault := adfs_challenge]> ∅) [] [])))
  = [mkTokenRequest "https://example.net/.default" None None true false]
  /\ token_requests
       (snd (on_request (env true true []) (request vault None)
               (mkState None None (<[cache_key vault := adfs_challenge]> ∅) [] [])))
     = [mkTokenRequest "https://example.net/.default" None None true true].
Proof. split; vm_compute; reflexivity. Qed.

End Scenarios.

(* ===================================================================== *)
(** ** Facts about the paged listing                                      *)
(* ===================================================================== *)

Module PagingFacts.
Import Paging.

Section WithService.

Variables Path PathProperties : Type.
Variable _from_generated : Path -> PathProperties.
Variable _command :
  option string -> result (list (Item Path PathProperties) * option string).

Abbreviation paged := (PathPropertiesPaged Path PathProperties).
Abbreviation next := (next_page _from_generated _command).

(** A page has been fetched and it came without a continuation. *)
Definition exhausted (it : paged) : Prop :=
  continuation_token it = None /\ _did_a_call_already it = true.

(** The iterator after [n] further calls of [next_page]. *)
Definition after (n : nat) (it : paged) : paged :=
  Nat.iter n (fun x => snd (next x)) it.

Lemma next_page_exhausted it :
  exhausted it -> next it = (Raise StopAsyncIteration, it).
Proof. intros [Ht Hd]. unfold next_page. now rewrite Ht, Hd. Qed.

Lemma after_exhausted n it : exhausted it -> after n it = it.
Proof.
  intros H. induction n as [|n IH]; [reflexivity|].
  unfold after in *. simpl. rewrite IH. now rewrite next_page_exhausted.
Qed.

Lemma items_exhausted n it :
  exhausted it -> items _from_generated _command n it = ([], it).
Proof.
  intros H. destruct n; [reflexivity|]. simpl.
  now rewrite (next_page_exhausted _ H).
Qed.

(** [_extract_data_cb] turns an absent and an empty continuation of the
    response into [None]. *)
Lemma _extract_data_cb_absent (it : paged) pl continuation :
  Policy.opt_truthy continuation = false ->
  fst (fst (_extract_data_cb _from_generated it (pl, continuation))) = None.
Proof. intros H. simpl. now rewrite H. Qed.

(** C7.  An iterator fetches a page (it is not exhausted yet, and the
    service answers) and the response carries no continuation, or an empty
    one.  Then the page is returned and the iterator is exhausted for good:
    however often [next_page] is called afterwards, it stops the iteration
    at once, the iterator stays as it is, no further request reaches the
    service, and iterating by item yields nothing. *)
Theorem absent_continuation_is_terminal (it : paged) pl continuation :
  continuation_token it <> None \/ _did_a_call_already it = false ->
  _command (if Policy.opt_truthy (continuation_token it)
            then continuation_token it else None)
  = Ok (pl, continuation) ->
  Policy.opt_truthy continuation = false ->
  exists it',
    next it = (Ok (map (_build_item _from_generated) pl), it')
    /\ continuation_token it' = None
    /\ calls it'
       = calls it ++ [if Policy.opt_truthy (continuation_token it)
                      then continuation_token it else None]
    /\ forall n,
         after n it' = it'
         /\ next (after n it') = (Raise StopAsyncIteration, it')
         /\ calls (snd (next (after n it'))) = calls it'
         /\ items _from_generated _command n it' = ([], it').
Proof.
  intros Hlive Hcmd Hcont.
  assert (Hnext : exists it',
             next it = (Ok (map (_build_item _from_generated) pl), it')
             /\ exhausted it'
             /\ calls it'
                = calls it ++ [if Policy.opt_truthy (continuation_token it)
                               then continuation_token it else None]).
  { unfold next_page, _get_next_cb.
    destruct (continuation_token it) as [tok|] eqn:Ht;
      destruct (_did_a_call_already it) eqn:Hd;
      try (destruct Hlive; congruence);
      rewrite Hcmd; simpl; rewrite Hcont;
      eexists; (split; [reflexivity|]); split; try reflexivity;
      split; reflexivity. }
  destruct Hnext as (it' & Hn & Hex & Hcalls).
  exists it'. split; [exact Hn|]. split; [apply Hex|]. split; [exact Hcalls|].
  intros n. rewrite (after_exhausted n _ Hex), (next_page_exhausted _ Hex).
  repeat split. now apply items_exhausted.
Qed.

End WithService.

(** A listing of three paths in two pages; the second response has an empty
    continuation. *)
Definition two_pages (marker : option string)
  : result (list (Item nat nat) * option string) :=
  match marker with
  | None => Ok ([IsPath 1; IsPath 2], Some "page-2")
  | Some _ => Ok ([IsPath 3], Some "")
  end.

Definition after_first_page : PathPropertiesPaged nat nat :=
  Eval vm_compute in snd (next_page (fun x => x) two_pages (init None)).

(** C7 at work: the second page of [two_pages] is the last. *)
Lemma absent_continuation_is_terminal_witness :
  exists it',
    next_page (fun x => x) two_pages after_first_page = (Ok [3], it')
    /\ continuation_token it' = None
    /\ calls it' = [None; Some "page-2"]
    /\ forall n,
         after nat nat (fun x => x) two_pages n it' = it'
         /\ next_page (fun x => x) two_pages
              (after nat nat (fun x => x) two_pages n it')
            = (Raise StopAsyncIteration, it')
         /\ calls (snd (next_page (fun x => x) two_pages
                          (after nat nat (fun x => x) two_pages n it')))
            = calls it'
         /\ items (fun x => x) two_pages n it' = ([], it').
Proof.
  apply (absent_continuation_is_terminal nat nat (fun x => x) two_pages
           after_first_page [IsPath 3] (Some "")).
  - left. discriminate.
  - reflexivity.
  - reflexivity.
Defined.

(** The whole listing, item by item, and once more after the end. *)
Example items_of_two_pages :
  fst (items (fun x => x) two_pages 5 (init None)) = [1; 2; 3]
  /\ fst (items (fun x => x) two_pages 5
            (snd (items (fun x => x) two_pages 5 (init None)))) = []
  /\ calls (snd (items (fun x => x) two_pages 5
                   (snd (items (fun x => x) two_pages 5 (init None)))))
     = [None; Some "page-2"].
Proof. repeat split. Qed.

End PagingFacts.

(* ===================================================================== *)
(** ** Facts about the pollers                                            *)
(* ===================================================================== *)

Module PollingFacts.
Import Polling.

Lemma tag_status_tag st : tag_status (status_tag st) = Some st.
Proof. destruct st; reflexivity. Qed.

(** Resuming from the token of a poller gives the poller back. *)
Lemma resume_continuation_token p :
  resume (continuation_token p) (interval p) = Some p.
Proof.
  unfold resume, continuation_token. rewrite tag_status_tag.
  destruct p; reflexivity.
Qed.

Lemma resume_status_url tok i p :
  resume tok i = Some p ->
  tok = continuation_token p /\ interval p = i.
Proof.
  unfold resume, continuation_token. destruct tok as [|c u]; [discriminate|].
  destruct (tag_status c) as [st|] eqn:Htag; [|discriminate].
  intros [= <-]. simpl. split; [|reflexivity]. f_equal.
  unfold tag_status in Htag.
  repeat match type of Htag with
         | (if Ascii.eqb ?a ?b then _ else _) = _ =>
             destruct (Ascii.eqb_spec a b)
         end; try discriminate; injection Htag as <-; assumption.
Qed.

Section WithService.

Variable service : string -> nat -> Status * string.

(** Terminal statuses are absorbing on the side of the service: once the
    operation is terminal, every later GET returns the same answer. *)
Definition absorbing : Prop :=
  forall u t t',
    t <= t' -> terminal (fst (service u t)) = true -> service u t' = service u t.

Hypothesis service_absorbing : absorbing.

(** Two terminal answers for one operation are the same answer. *)
Lemma terminal_answers_agree u t t' :
  terminal (fst (service u t)) = true ->
  terminal (fst (service u t')) = true ->
  service u t = service u t'.
Proof.
  intros H H'. destruct (Nat.le_ge_cases t t') as [Hle|Hle].
  - symmetry. now apply service_absorbing.
  - now apply service_absorbing.
Qed.

(** [wait] keeps the tracking URL and the interval, and the status it ends
    with was read from the service no later than the time it ends at. *)
Lemma wait_observed n : forall p t t0,
  t0 <= t ->
  status p = fst (service (tracking_url p) t0) ->
  let '(p', t') := wait service n p t in
  tracking_url p' = tracking_url p
  /\ interval p' = interval p
  /\ exists t0', t0' <= t' /\ status p' = fst (service (tracking_url p) t0').
Proof.
  induction n as [|n IH]; intros p t t0 Hle Hobs; simpl.
  - destruct (terminal (status p)); repeat split; eauto.
  - destruct (terminal (status p)); [repeat split; eauto|].
    specialize (IH (poll service p (t + interval p)) (t + interval p)
                  (t + interval p) (Nat.le_refl _) eq_refl).
    destruct (wait service n _ _) as [p' t']. exact IH.
Qed.

(** With a positive interval and enough polls to get past a time at which
    the operation is terminal, [wait] ends with a terminal status. *)
Lemma wait_terminal n : forall p t T,
  terminal (fst (service (tracking_url p) T)) = true ->
  0 < interval p ->
  terminal (status p) = true \/ (0 < n /\ T <= t + n * interval p) ->
  terminal (status (fst (wait service n p t))) = true.
Proof.
  induction n as [|n IH]; intros p t T HT Hi Hn; simpl.
  - destruct (terminal (status p)) eqn:Hp; [exact Hp|].
    destruct Hn as [Hn|[Hn _]]; [discriminate | lia].
  - destruct (terminal (status p)) eqn:Hp; [exact Hp|].
    destruct Hn as [Hn|[_ Hn]]; [discriminate|].
    apply (IH _ _ T); simpl; try assumption.
    destruct n as [|n].
    + left. rewrite (service_absorbing _ T (t + interval p)); [exact HT | lia | exact HT].
    + right. split; lia.
Qed.

(** What [result] returns once the operation is terminal at some time [T]:
    the answer of the service at [T]. *)
Lemma result_terminal n p t t0 T :
  t0 <= t ->
  status p = fst (service (tracking_url p) t0) ->
  terminal (fst (service (tracking_url p) T)) = true ->
  0 < interval p ->
  terminal (status p) = true \/ (0 < n /\ T <= t + n * interval p) ->
  result service n p t = Some (service (tracking_url p) T)
  /\ status (fst (wait service n p t)) = fst (service (tracking_url p) T).
Proof.
  intros Hle Hobs HT Hi Hn.
  pose proof (wait_observed n p t t0 Hle Hobs) as Hw.
  pose proof (wait_terminal n p t T HT Hi Hn) as Hterm.
  unfold result. destruct (wait service n p t) as [p' t'].
  destruct Hw as (Hu & _ & t0' & Hle' & Hst). simpl in Hterm.
  rewrite Hterm, Hu.
  assert (Hterm' : terminal (fst (service (tracking_url p) t0')) = true)
    by now rewrite <- Hst.
  rewrite (service_absorbing _ t0' t' Hle' Hterm').
  simpl. rewrite Hst, (terminal_answers_agree _ t0' T Hterm' HT).
  split; [|reflexivity]. now destruct (service (tracking_url p) T).
Qed.

(** C8.  Resuming from the token of a poller gives a poller with the same
    status and the same tracking URL (and no request is made for it).  And
    two pollers resumed from one token, whose status the service reported at
    some time [t0], whatever their intervals, whenever after [t0] each of
    them starts and however many polls each is allowed, provided the
    operation is terminal at some time [T] that each gets past: both end
    with the same terminal status and [result] gives both the same final
    payload, the one the service has at [T]. *)
Theorem rehydrated_pollers_agree :
  (forall p, resume (continuation_token p) (interval p) = Some p)
  /\ (forall tok i1 i2 p1 p2 t0 t1 t2 n1 n2 T,
        resume tok i1 = Some p1 ->
        resume tok i2 = Some p2 ->
        status p1 = fst (service (tracking_url p1) t0) ->
        terminal (fst (service (tracking_url p1) T)) = true ->
        t0 <= t1 -> t0 <= t2 ->
        0 < i1 -> 0 < i2 ->
        0 < n1 -> 0 < n2 ->
        T <= t1 + n1 * i1 -> T <= t2 + n2 * i2 ->
        status p2 = status p1
        /\ tracking_url p2 = tracking_url p1
        /\ terminal (status (fst (wait service n1 p1 t1))) = true
        /\ status (fst (wait service n1 p1 t1))
           = status (fst (wait service n2 p2 t2))
        /\ result service n1 p1 t1 = Some (service (tracking_url p1) T)
        /\ result service n2 p2 t2 = Some (service (tracking_url p1) T)).
Proof.
  split; [apply resume_continuation_token|].
  intros tok i1 i2 p1 p2 t0 t1 t2 n1 n2 T Hr1 Hr2 Hobs HT Hle1 Hle2 Hi1 Hi2
    Hn1 Hn2 HT1 HT2.
  apply resume_status_url in Hr1 as [Htok1 Hint1].
  apply resume_status_url in Hr2 as [Htok2 Hint2].
  rewrite Htok1 in Htok2. unfold continuation_token in Htok2.
  injection Htok2 as Htag Hurl.
  assert (Hst : status p2 = status p1).
  { destruct (status p1), (status p2); try reflexivity; discriminate. }
  subst i1 i2.
  destruct (result_terminal n1 p1 t1 t0 T Hle1 Hobs HT Hi1
              (or_intror (conj Hn1 HT1))) as [Hres1 Hfin1].
  assert (Hobs2 : status p2 = fst (service (tracking_url p2) t0))
    by (rewrite Hst, <- Hurl; exact Hobs).
  assert (HT' : terminal (fst (service (tracking_url p2) T)) = true)
    by (rewrite <- Hurl; exact HT).
  destruct (result_terminal n2 p2 t2 t0 T Hle2 Hobs2 HT' Hi2
              (or_intror (conj Hn2 HT2))) as [Hres2 Hfin2].
  rewrite <- Hurl in Hres2, Hfin2.
  repeat split; try assumption; try congruence.
Qed.

End WithService.

(** A backup that runs until time 5 and then has succeeded. *)
Definition backup (u : string) (t : nat) : Status * string :=
  if (t <? 5)%nat then (Running, "")
  else (Succeeded, "https://account.blob.core.windows.net/backup/folder").

Lemma backup_absorbing : absorbing backup.
Proof.
  intros u t t' Hle. unfold backup.
  destruct (Nat.ltb_spec t 5); [discriminate|].
  destruct (Nat.ltb_spec t' 5); [lia | reflexivity].
Qed.

Definition backup_poller : LROState := mkLRO Running "https://vault/backup/1/pending" 2.

(** C8 at work: the poller of a running backup and a poller resumed from
    its token, polling at different paces from different times. *)
Lemma rehydrated_pollers_agree_witness :
  absorbing backup
  /\ (forall p, resume (continuation_token p) (interval p) = Some p)
  /\ status (fst (wait backup 4 backup_poller 0))
     = status (fst (wait backup 2 (mkLRO Running "https://vault/backup/1/pending" 3) 1))
  /\ result backup 4 backup_poller 0 = Some (backup "https://vault/backup/1/pending" 6)
  /\ result backup 2 (mkLRO Running "https://vault/backup/1/pending" 3) 1
     = Some (backup "https://vault/backup/1/pending" 6).
Proof.
  split; [exact backup_absorbing|].
  pose proof (rehydrated_pollers_agree backup backup_absorbing) as [Hround Hagree].
  split; [exact Hround|].
  destruct (Hagree (continuation_token backup_poller) 2 3 backup_poller
              (mkLRO Running "https://vault/backup/1/pending" 3) 0 0 1 4 2 6)
    as (_ & _ & _ & Hst & Hres1 & Hres2);
    try reflexivity; try lia.
  repeat split; assumption.
Defined.

(** The run of that witness, spelled out. *)
Example backup_results :
  result backup 4 backup_poller 0
  = Some (Succeeded, "https://account.blob.core.windows.net/backup/folder")
  /\ result backup 1 backup_poller 0 = None
  /\ (status <$> resume (continuation_token (fst (wait backup 4 backup_poller 0))) 2)
     = Some Succeeded.
Proof. repeat split. Qed.

End PollingFacts.

(* ===================================================================== *)
(** ** More facts about the policy                                        *)
(* ===================================================================== *)

Module PolicyMore.
Import Policy PyStrFacts PolicyFacts.
Local Open Scope policy_scope.

(** The request with the bearer token of [t] in its [Authorization]
    header. *)
Definition with_bearer (t : AccessToken) (r : PipelineRequest) : PipelineRequest :=
  mkPipelineRequest
    (mkHttpRequest (method (http_request r)) (url (http_request r))
       (hdr_set (headers (http_request r)) "Authorization" ("Bearer " +:+ token t))
       (content (http_request r)))
    (context_options r).

(** The request without its body, as [on_request] sends it to elicit a
    challenge. *)
Definition bodiless (r : HttpRequest) : HttpRequest :=
  mkHttpRequest (method r) (url r) (hdr_set (headers r) "Content-Length" "0") None.

(** **** [_has_claims] *)

Lemma startswith_nil s : startswith s "" = true.
Proof. destruct s; reflexivity. Qed.

(** [c] does not occur in [String x n]. *)
Lemma not_in_cons c x n :
  contains (String c "") (String x n) = false ->
  Ascii.eqb c x = false /\ contains (String c "") n = false.
Proof.
  simpl. rewrite startswith_nil, andb_true_r. intros H.
  now apply orb_false_iff in H.
Qed.

Lemma split1_no_sep c s :
  contains (String c "") s = false -> split1 c s = [s].
Proof.
  induction s as [|a r IH]; [reflexivity|].
  intros H. apply not_in_cons in H as [Hc Hr]. simpl.
  rewrite Ascii.eqb_sym, Hc. now rewrite (IH Hr).
Qed.

Lemma split1_at_first_sep c a b :
  contains (String c "") a = false ->
  split1 c (a +:+ String c b) = [a; b].
Proof.
  induction a as [|x r IH]; intros H.
  - rewrite app_nil. simpl. now rewrite Ascii.eqb_refl.
  - apply not_in_cons in H as [Hc Hr]. rewrite app_cons. simpl.
    rewrite Ascii.eqb_sym, Hc. now rewrite (IH Hr).
Qed.

(** The first piece of [s.split(c)] starts with [n] exactly when [s] does,
    for an [n] in which [c] does not occur. *)
Lemma split_head_startswith c : forall s n,
  contains (String c "") n = false ->
  startswith (hd "" (split c s)) n = startswith s n.
Proof.
  induction s as [|a r IH]; intros n Hn; [reflexivity|]. simpl.
  destruct (Ascii.eqb a c) eqn:Hac.
  - apply Ascii.eqb_eq in Hac. subst a.
    destruct n as [|x n']; [reflexivity|].
    apply not_in_cons in Hn as [Hc _]. simpl.
    now rewrite Ascii.eqb_sym, Hc.
  - specialize (IH).
    destruct (split c r) as [|w ws] eqn:Hsp.
    + destruct n as [|x n']; [reflexivity|]. simpl.
      exfalso. destruct r as [|b r']; simpl in Hsp; [discriminate|].
      destruct (Ascii.eqb b c); [discriminate|].
      destruct (split c r'); discriminate.
    + destruct n as [|x n']; [reflexivity|].
      apply not_in_cons in Hn as [_ Hn']. simpl.
      destruct (Ascii.eqb x a); [|reflexivity]. simpl.
      apply (IH n' Hn').
Qed.

Lemma split_nonempty c s : split c s <> [].
Proof.
  destruct s as [|a r]; simpl; [discriminate|].
  destruct (Ascii.eqb a c); [discriminate|].
  destruct (split c r); discriminate.
Qed.

(** Looking for [n] in the pieces of [s.split(c)] is looking for it in [s],
    for a non-empty [n] in which [c] does not occur. *)
Lemma existsb_contains_split c n : forall s,
  n <> "" ->
  contains (String c "") n = false ->
  existsb (fun item => contains n item) (split c s) = contains n s.
Proof.
  intros s Hne Hn. destruct n as [|x n']; [congruence|].
  apply not_in_cons in Hn as [Hc Hn'].
  induction s as [|a r IH].
  - reflexivity.
  - simpl split. destruct (Ascii.eqb a c) eqn:Hac.
    + apply Ascii.eqb_eq in Hac. subst a.
      cbn [existsb]. rewrite IH. simpl.
      now rewrite (Ascii.eqb_sym x c), Hc.
    + pose proof (split_head_startswith c r n' Hn') as Hhd.
      destruct (split c r) as [|w ws] eqn:Hsp; [now apply split_nonempty in Hsp|].
      simpl in IH, Hhd |- *. rewrite <- IH, Hhd.
      now rewrite orb_assoc.
Qed.

Lemma _has_claims_without_space h :
  contains " " (strip h) = false ->
  _has_claims h = Raise (IndexError "list index out of range").
Proof. intros H. unfold _has_claims. now rewrite (split1_no_sep _ _ H). Qed.

(** X1.  [_has_claims] looks for "claims=" in what follows the first space
    of the stripped header, and nowhere else: cutting the parameters at the
    commas changes nothing, and a "claims=" inside the scheme does not
    count.  A stripped header without a space is an [IndexError]. *)
Theorem has_claims_reads_the_parameters h :
  (contains " " (strip h) = false ->
   _has_claims h = Raise (IndexError "list index out of range"))
  /\ (forall scheme params,
        strip h = scheme +:+ String " " params ->
        contains " " scheme = false ->
        _has_claims h = Ok (contains "claims=" params)).
Proof.
  split; [apply _has_claims_without_space|]. unfold _has_claims.
  intros scheme params Hs Hsch.
  rewrite Hs, (split1_at_first_sep _ _ _ Hsch). simpl.
  f_equal. now apply existsb_contains_split.
Qed.

Section WithEnv.

Variable E : Env.

(** **** [_need_new_token] *)

(** The token is kept exactly when there is one with at least 300 seconds
    to go whose refresh time is absent, zero or still ahead. *)
Lemma _need_new_token_false s :
  _need_new_token E s = false <->
  exists t, _token s = Some t
            /\ (300 <= expires_on t - now E)%Z
            /\ (refresh_on t = None
                \/ exists r, refresh_on t = Some r /\ (r = 0 \/ now E < r)%Z).
Proof.
  unfold _need_new_token. destruct (_token s) as [t|]; split.
  - intros H. apply orb_false_iff in H as [Hr He].
    exists t. split; [reflexivity|]. split; [lia|].
    destruct (refresh_on t) as [r|]; [|now left].
    right. exists r. split; [reflexivity|].
    apply andb_false_iff in Hr as [Hr|Hr].
    + left. apply negb_false_iff in Hr. lia.
    + right. lia.
  - intros (t' & [= <-] & He & Hr). apply orb_false_iff. split; [|lia].
    destruct Hr as [->|(r & -> & [->|Hr])]; [reflexivity|reflexivity|].
    apply andb_false_iff. right. lia.
  - discriminate.
  - intros (t' & Ht & _). discriminate.
Qed.


Lemma _need_new_token_true s :
  (_token s = None
   \/ exists t, _token s = Some t
                /\ ((expires_on t - now E < 300)%Z
                    \/ exists r, refresh_on t = Some r /\ r <> 0%Z /\ (r <= now E)%Z)) ->
  _need_new_token E s = true.
Proof.
  intros H. destruct (_need_new_token E s) eqn:Hn; [reflexivity|].
  apply _need_new_token_false in Hn as (t & Ht & He & Hr).
  destruct H as [H|(t' & Ht' & H)]; [congruence|].
  rewrite Ht in Ht'. injection Ht' as <-.
  destruct H as [H|(r & Hr' & Hne & Hle)]; [lia|].
  destruct Hr as [Hr|(r' & Hr & [H0|Hlt])]; [congruence| |];
    rewrite Hr' in Hr; injection Hr as <-; lia.
Qed.

(** **** [on_request] with a cached challenge *)

(** X2.  A challenge is cached for the authority and the policy holds a
    token with at least 300 seconds to go whose refresh time is absent, zero
    or still ahead: [on_request] puts that token on the request and changes
    nothing else; the credential is not asked. *)
Theorem on_request_reuses_a_fresh_token request s challenge t :
  startswith (lower (url (http_request request))) "https" = true ->
  cache s !! cache_key (url (http_request request)) = Some challenge ->
  _token s = Some t ->
  (300 <= expires_on t - now E)%Z ->
  (refresh_on t = None
   \/ exists r, refresh_on t = Some r /\ (r = 0 \/ now E < r)%Z) ->
  on_request E request s = (Ok (with_bearer t request), s).
Proof.
  intros Htls Hcache Ht He Hr.
  assert (Hn : _need_new_token E s = false)
    by (apply _need_new_token_false; eauto).
  unfold on_request, _enforce_tls, get_challenge_for_url, bind, get, ret.
  rewrite Htls. simpl. rewrite Hcache, Hn. simpl. rewrite Ht. reflexivity.
Qed.

(** The token request of [_request_kv_token]. *)
Definition kv_token_request (scope : string) (challenge : HttpChallenge)
  : TokenRequest :=
  if has_get_token_info E then
    mkTokenRequest scope None
      (if opt_truthy (tenant_id challenge) && negb (is_adfs (tenant_id challenge))
       then tenant_id challenge else None)
      true true
  else
    mkTokenRequest scope None
      (if is_adfs (tenant_id challenge) then None else tenant_id challenge)
      true false.

Lemma _request_kv_token_run scope challenge s :
  _request_kv_token E scope challenge s
  = match get_token E (kv_token_request scope challenge) with
    | Ok tok =>
        (Ok tt, set_token (Some tok)
                  (log_token_request (kv_token_request scope challenge) s))
    | Raise e => (Raise e, log_token_request (kv_token_request scope challenge) s)
    end.
Proof.
  unfold _request_kv_token, kv_token_request, call_credential, bind, modify, lift.
  destruct (has_get_token_info E); [|destruct (is_adfs (tenant_id challenge))];
    simpl; destruct (get_token E _); reflexivity.
Qed.

(** X3.  A challenge is cached for the authority and the policy holds no
    token, or one with less than 300 seconds to go, or one whose refresh
    time has come: [on_request] asks the credential once, for the scope of
    the cached challenge, without claims.  That scope is the [scope]
    parameter of the challenge when it has one that is not empty; when it
    has none, or an empty one, it is its [resource] parameter (nothing when
    there is none) followed by "/.default".  The new token is kept and put
    on the request; an error of the credential is raised as it is, and then
    no token is kept anew and nothing is put on the request. *)
Theorem on_request_asks_for_a_new_token request s challenge scope :
  startswith (lower (url (http_request request))) "https" = true ->
  cache s !! cache_key (url (http_request request)) = Some challenge ->
  (_token s = None
   \/ exists t, _token s = Some t
                /\ ((expires_on t - now E < 300)%Z
                    \/ exists r, refresh_on t = Some r /\ r <> 0%Z /\ (r <= now E)%Z)) ->
  (_parameters challenge !! "scope" = Some scope /\ scope <> "")
  \/ ((_parameters challenge !! "scope" = None
       \/ _parameters challenge !! "scope" = Some "")
      /\ scope = default "" (_parameters challenge !! "resource") +:+ "/.default") ->
  on_request E request s
  = match get_token E (kv_token_request scope challenge) with
    | Ok tok =>
        (Ok (with_bearer tok request),
         set_token (Some tok)
           (log_token_request (kv_token_request scope challenge) s))
    | Raise e =>
        (Raise e, log_token_request (kv_token_request scope challenge) s)
    end.
Proof.
  intros Htls Hcache Hstale Hscope. apply _need_new_token_true in Hstale.
  apply scope_or_default_parameters in Hscope.
  unfold on_request, _enforce_tls, get_challenge_for_url, bind, get, ret.
  rewrite Htls. simpl. rewrite Hcache, Hstale, Hscope.
  rewrite _request_kv_token_run.
  destruct (get_token E _); reflexivity.
Qed.

(** X4.  Only a tenant that ends with "adfs" is left out: for any other
    tenant of the challenge, [_request_kv_token] passes it to [get_token] as
    it is (to [get_token_info] when it is not empty), and [on_challenge]
    passes it with the token request it makes. *)
Theorem other_tenants_are_passed_on challenge :
  is_adfs (tenant_id challenge) = false ->
  (forall scope s,
     token_requests (snd (_request_kv_token E scope challenge s))
     = token_requests s
       ++ [mkTokenRequest scope None
             (if has_get_token_info E && negb (opt_truthy (tenant_id challenge))
              then None else tenant_id challenge)
             true (has_get_token_info E)])
  /\ (forall request response s scope s1,
        on_challenge_try E request response s = (Ok (challenge, scope), s1) ->
        resource_verified E (url (http_request request)) scope = true ->
        token_requests (snd (on_challenge E request response s))
        = token_requests s
          ++ [mkTokenRequest scope (claims challenge) (tenant_id challenge) true
                (has_get_token_info E)]).
Proof.
  intros Hadfs. split.
  - intros scope s. rewrite _request_kv_token_run. unfold kv_token_request.
    rewrite Hadfs, andb_true_r.
    destruct (has_get_token_info E); simpl;
      [destruct (opt_truthy (tenant_id challenge)); simpl|];
      destruct (get_token E _); reflexivity.
  - intros request response s scope s1 Htry Hver.
    rewrite (on_challenge_token_request _ _ _ _ _ _ _ Htry Hver).
    unfold challenge_token_request, request_tenant. now rewrite Hadfs.
Qed.


(** **** [on_challenge], exactly *)

(** The request that [on_challenge] authorizes: the copy that [on_request]
    has kept, if there is one, and else the request it is given. *)
Definition restored (s : State) (request : PipelineRequest) : PipelineRequest :=
  match _request_copy s with
  | Some copy => mkPipelineRequest copy (context_options request)
  | None => request
  end.

(** The state after [on_challenge] has authorized the request: the token
    request is logged, the token kept, and a kept copy now carries the
    header as well. *)
Definition authorized_state (s1 : State) (tr : TokenRequest) (tok : AccessToken)
    (request : PipelineRequest) : State :=
  let s2 := set_token (Some tok) (log_token_request tr s1) in
  match _request_copy s1 with
  | Some _ =>
      set_request_copy (Some (http_request (with_bearer tok (restored s1 request)))) s2
  | None => s2
  end.

Lemma on_challenge_run request response s challenge scope s1 :
  on_challenge_try E request response s = (Ok (challenge, scope), s1) ->
  resource_verified E (url (http_request request)) scope = true ->
  on_challenge E request response s
  = match get_token E (challenge_token_request E challenge scope) with
    | Ok tok =>
        (Ok (true, with_bearer tok (restored s1 request)),
         authorized_state s1 (challenge_token_request E challenge scope) tok request)
    | Raise e =>
        (Raise e, log_token_request (challenge_token_request E challenge scope) s1)
    end.
Proof.
  intros Htry Hver.
  unfold on_challenge, except_ValueError, bind.
  rewrite Htry. simpl. unfold bind.
  rewrite (verify_resource_ok _ _ _ _ Hver). simpl.
  unfold challenge_token_request, request_tenant, authorized_state, restored.
  unfold authorize_request, call_credential, bind, modify, lift, ret.
  destruct (is_adfs (tenant_id challenge)); simpl;
    destruct (get_token E _); simpl; try reflexivity;
    destruct (_request_copy s1); reflexivity.
Qed.

(** X5.  With the verification switched off, [on_challenge] accepts the
    scope of any challenge, whatever its authority and that of the request:
    once the [try] block has produced a challenge and a scope, the token is
    asked for that scope and nothing is raised by the policy itself (an error
    can only come from the credential). *)
Theorem verification_can_be_switched_off request response s challenge scope s1 :
  _verify_challenge_resource E = false ->
  on_challenge_try E request response s = (Ok (challenge, scope), s1) ->
  token_requests (snd (on_challenge E request response s))
  = token_requests s ++ [challenge_token_request E challenge scope]
  /\ (forall e, fst (on_challenge E request response s) = Raise e ->
        get_token E (challenge_token_request E challenge scope) = Raise e).
Proof.
  intros Hv Htry.
  assert (Hver : resource_verified E (url (http_request request)) scope = true)
    by (unfold resource_verified; now rewrite Hv).
  split; [now apply (on_challenge_token_request _ _ _ _ _ _ _ Htry)|].
  intros e. rewrite (on_challenge_run _ _ _ _ _ _ Htry Hver).
  destruct (get_token E _); simpl; [discriminate | congruence].
Qed.

(** X6.  With the verification switched on, a challenge that names neither
    a scope nor a resource, met when no challenge is cached for the
    authority, is refused: its scope is "/.default", which has no authority,
    and [on_challenge] raises the [ValueError] for an invalid scope.  No
    token is asked for and nothing is sent; the challenge has been cached
    all the same. *)
Theorem challenge_without_scope_is_refused request response s challenge :
  _verify_challenge_resource E = true ->
  cache s !! cache_key (url (http_request request)) = None ->
  HttpChallenge_init E (url (http_request request))
    (hdr_get (response_headers response) "WWW-Authenticate")
    (response_headers response) = Some challenge ->
  _parameters challenge !! "scope" = None ->
  _parameters challenge !! "resource" = None ->
  exists s1,
    on_challenge E request response s
    = (Raise (ValueError (invalid_scope_message "/.default")), s1)
    /\ token_requests s1 = token_requests s
    /\ sent s1 = sent s
    /\ cache s1 !! cache_key (url (http_request request)) = Some challenge.
Proof.
  intros Hv Hcache Hparse Hscope Hres.
  pose proof (on_challenge_try_fresh E _ _ _ _ Hcache Hparse) as Htry.
  assert (Hsd : scope_or_default challenge = "/.default").
  { unfold scope_or_default, get_scope, get_resource. now rewrite Hscope, Hres. }
  rewrite Hsd in Htry.
  exists (set_cache
            (<[cache_key (url (http_request request)) := challenge]> (cache s)) s).
  split; [|split; [reflexivity|split; [reflexivity|]]].
  - apply (on_challenge_verify_raises E _ _ _ _ _ _ _ Htry).
    unfold verify_resource, urlparse_netloc, bind, raise. rewrite Hv. reflexivity.
  - simpl. apply lookup_insert_eq.
Qed.


(** **** [send], step by step *)

(** The pipeline request as it is sent again: the options of its context
    have lost "insecure_domain_change". *)
Definition resent (r : PipelineRequest) : PipelineRequest :=
  mkPipelineRequest (http_request r)
    (delete "insecure_domain_change" (context_options r)).

(** [send] up to the answer to the first request. *)
Lemma send_first_answer request s rq s0 :
  on_request E request s = (Ok rq, s0) ->
  send E request s
  = match responses E (length (sent s)) with
    | Raise e => (Raise e, log_sent (http_request rq) s0)
    | Ok r1 =>
        if (status_code r1 =? 401)%Z
        then handle_challenge_flow E rq r1 false (log_sent (http_request rq) s0)
        else (Ok r1, log_sent (http_request rq) s0)
    end.
Proof.
  intros Hreq.
  pose proof (on_request_keeps_sent E request s) as Hk.
  rewrite Hreq in Hk. simpl in Hk.
  unfold send, bind. rewrite Hreq.
  unfold except_reraise, next_send, on_exception, on_response, ret.
  cbn [fst snd]. rewrite Hk.
  destruct (responses E (length (sent s))) as [r1|e]; [|reflexivity].
  cbn [fst snd]. destruct (status_code r1 =? 401)%Z; reflexivity.
Qed.

(** The challenge flow once [on_challenge] has authorized the request: the
    request is sent again, and only the answer to a challenge without
    claims, when it is a 401 again, is looked at as a challenge in its
    turn. *)
Lemma handle_challenge_flow_authorized request response s h c rq2 s2 :
  hdr_get (response_headers response) "WWW-Authenticate" = Some h ->
  _has_claims h = Ok c ->
  on_challenge E request response (set_token None s) = (Ok (true, rq2), s2) ->
  handle_challenge_flow E request response false s
  = match responses E (length (sent s2)) with
    | Raise e => (Raise e, log_sent (http_request rq2) s2)
    | Ok r2 =>
        if (status_code r2 =? 401)%Z && negb c
        then handle_challenge_flow E (resent rq2) r2 true
               (log_sent (http_request rq2) s2)
        else (Ok r2, log_sent (http_request rq2) s2)
    end.
Proof.
  intros Hh Hc Hoc. rewrite handle_challenge_flow_unfold.
  unfold handle_challenge_flow_body at 1, bind, modify, lift.
  cbn [fst snd]. rewrite Hh, Hc. cbn [andb]. rewrite Hoc.
  unfold except_reraise, next_send, on_exception, on_response, ret.
  cbn [fst snd http_request].
  destruct (responses E (length (sent s2))) as [r2|e]; [|reflexivity].
  rewrite andb_true_r. unfold resent.
  destruct (status_code r2 =? 401)%Z; [|reflexivity].
  destruct c; reflexivity.
Qed.

(** A challenge that arrives right after another one and carries no
    claims, or no challenge header at all, is not answered. *)
Lemma handle_challenge_flow_consecutive_returns request response s :
  hdr_get (response_headers response) "WWW-Authenticate" = None
  \/ (exists h, hdr_get (response_headers response) "WWW-Authenticate" = Some h
                /\ _has_claims h = Ok false) ->
  handle_challenge_flow E request response true s = (Ok response, set_token None s).
Proof.
  intros H.
  unfold handle_challenge_flow, handle_challenge_flow_body, bind, modify, lift.
  cbn [fst snd]. destruct H as [->|(h & -> & ->)]; reflexivity.
Qed.

(** X7.  When the answer to the first request is not a 401, or is a 401
    without a [WWW-Authenticate] header, [send] returns it as it is after
    that one request; the credential is asked nothing beyond what
    [on_request] asked. *)
Theorem first_answer_is_returned request s rq s0 r1 :
  on_request E request s = (Ok rq, s0) ->
  responses E (length (sent s)) = Ok r1 ->
  status_code r1 <> 401%Z
  \/ hdr_get (response_headers r1) "WWW-Authenticate" = None ->
  exists s',
    send E request s = (Ok r1, s')
    /\ sent s' = sent s ++ [http_request rq]
    /\ token_requests s' = token_requests s0.
Proof.
  intros Hreq Hr1 Hcase.
  pose proof (on_request_keeps_sent E request s) as Hk.
  rewrite Hreq in Hk. simpl in Hk.
  rewrite (send_first_answer _ _ _ _ Hreq), Hr1.
  destruct (status_code r1 =? 401)%Z eqn:Hst.
  - destruct Hcase as [Hne|Hh]; [apply Z.eqb_eq in Hst; contradiction|].
    unfold handle_challenge_flow, handle_challenge_flow_body, bind, modify, lift.
    cbn [fst snd]. rewrite Hh. eexists. split; [reflexivity|].
    simpl. now rewrite Hk.
  - eexists. split; [reflexivity|]. simpl. now rewrite Hk.
Qed.


(** [on_request] when no challenge is cached and the request has a body:
    the original request is kept and a copy without the body goes out. *)
Lemma on_request_keeps_a_copy request s :
  startswith (lower (url (http_request request))) "https" = true ->
  cache s !! cache_key (url (http_request request)) = None ->
  opt_truthy (content (http_request request)) = true ->
  on_request E request s
  = (Ok (mkPipelineRequest (bodiless (http_request request))
           (context_options request)),
     set_request_copy (Some (http_request request)) s).
Proof.
  intros Htls Hcache Hbody.
  unfold on_request, _enforce_tls, get_challenge_for_url, bind, get, ret, modify.
  rewrite Htls. simpl. now rewrite Hcache, Hbody.
Qed.

(** X8.  The discovery of a request with a body.  No challenge is cached,
    the first answer is a 401 whose challenge parses, passes the
    verification and gets a token, and the second answer is not a 401.  Then
    two requests go out: first the request without its body and with
    [Content-Length: 0], then the original request, body and headers as the
    caller made them, with the bearer token added.  The second answer is
    returned, the token is kept, and the copy that the policy holds is the
    request as it was sent the second time. *)
Theorem discovery_sends_the_body_with_the_token
    request s r1 h c challenge tok r2 :
  cache s !! cache_key (url (http_request request)) = None ->
  startswith (lower (url (http_request request))) "https" = true ->
  opt_truthy (content (http_request request)) = true ->
  responses E (length (sent s)) = Ok r1 ->
  status_code r1 = 401%Z ->
  hdr_get (response_headers r1) "WWW-Authenticate" = Some h ->
  _has_claims h = Ok c ->
  HttpChallenge_init E (url (http_request request)) (Some h)
    (response_headers r1) = Some challenge ->
  resource_verified E (url (http_request request)) (scope_or_default challenge)
  = true ->
  get_token E (challenge_token_request E challenge (scope_or_default challenge))
  = Ok tok ->
  responses E (S (length (sent s))) = Ok r2 ->
  status_code r2 <> 401%Z ->
  exists s',
    send E request s = (Ok r2, s')
    /\ sent s' = sent s ++ [bodiless (http_request request);
                            http_request (with_bearer tok request)]
    /\ token_requests s'
       = token_requests s
         ++ [challenge_token_request E challenge (scope_or_default challenge)]
    /\ _token s' = Some tok
    /\ _request_copy s' = Some (http_request (with_bearer tok request)).
Proof.
  intros Hcache Htls Hbody Hr1 Hst1 Hh Hc Hparse Hver Htok Hr2 Hst2.
  pose proof (on_request_keeps_a_copy request s Htls Hcache Hbody) as Hreq.
  rewrite (send_first_answer _ _ _ _ Hreq), Hr1, Hst1.
  change (401 =? 401)%Z with true. cbv iota.
  set (probe := mkPipelineRequest (bodiless (http_request request))
                  (context_options request)).
  set (s1 := log_sent (http_request probe)
               (set_request_copy (Some (http_request request)) s)).
  assert (Htry : on_challenge_try E probe r1 (set_token None s1)
                 = (Ok (challenge, scope_or_default challenge),
                    set_cache (<[cache_key (url (http_request probe)) := challenge]>
                                 (cache (set_token None s1)))
                      (set_token None s1))).
  { apply on_challenge_try_fresh; [exact Hcache | now rewrite Hh]. }
  pose proof (on_challenge_run probe r1 _ _ _ _ Htry Hver) as Hoc.
  rewrite Htok in Hoc.
  rewrite (handle_challenge_flow_authorized _ _ _ _ _ _ _ Hh Hc Hoc).
  cbn [sent authorized_state set_cache set_token _request_copy s1 log_sent
       set_request_copy log_token_request restored with_bearer http_request].
  rewrite length_app, Nat.add_1_r. cbn [length]. rewrite Hr2.
  apply Z.eqb_neq in Hst2. rewrite Hst2. cbn [andb].
  eexists. split; [reflexivity|].
  cbn. rewrite <- app_assoc. repeat split.
Qed.

(** X9.  The first 401 carries a challenge without claims that the policy
    answers; the answer to the request sent again is a 401 whose challenge
    carries no claims either, or that has no challenge header.  Then [send]
    returns this second 401 as it is: no third request is sent, the
    credential is not asked again, the second challenge is neither parsed
    nor cached, and the token acquired for the first challenge is dropped. *)
Theorem second_challenge_without_claims_is_returned
    request s rq s0 r1 h1 rq2 s2 r2 :
  on_request E request s = (Ok rq, s0) ->
  responses E (length (sent s)) = Ok r1 ->
  status_code r1 = 401%Z ->
  hdr_get (response_headers r1) "WWW-Authenticate" = Some h1 ->
  _has_claims h1 = Ok false ->
  on_challenge E rq r1 (set_token None (log_sent (http_request rq) s0))
  = (Ok (true, rq2), s2) ->
  responses E (S (length (sent s))) = Ok r2 ->
  status_code r2 = 401%Z ->
  hdr_get (response_headers r2) "WWW-Authenticate" = None
  \/ (exists h2, hdr_get (response_headers r2) "WWW-Authenticate" = Some h2
                 /\ _has_claims h2 = Ok false) ->
  exists s',
    send E request s = (Ok r2, s')
    /\ sent s' = sent s ++ [http_request rq; http_request rq2]
    /\ token_requests s' = token_requests s2
    /\ cache s' = cache s2
    /\ _token s' = None.
Proof.
  intros Hreq Hr1 Hst1 Hh1 Hc1 Hoc Hr2 Hst2 Hsecond.
  pose proof (on_request_keeps_sent E request s) as Hk0.
  rewrite Hreq in Hk0. simpl in Hk0.
  pose proof (on_challenge_keeps_sent E rq r1
                (set_token None (log_sent (http_request rq) s0))) as Hk2.
  rewrite Hoc in Hk2. simpl in Hk2. rewrite Hk0 in Hk2.
  rewrite (send_first_answer _ _ _ _ Hreq), Hr1, Hst1.
  change (401 =? 401)%Z with true. cbv iota.
  rewrite (handle_challenge_flow_authorized _ _ _ _ _ _ _ Hh1 Hc1 Hoc).
  rewrite Hk2, length_app, Nat.add_1_r. cbn [length]. rewrite Hr2, Hst2.
  change (401 =? 401)%Z with true. cbn [andb negb].
  rewrite (handle_challenge_flow_consecutive_returns _ _ _ Hsecond).
  eexists. split; [reflexivity|].
  simpl. rewrite Hk2, <- app_assoc. repeat split.
Qed.


(** **** Errors of the next policy *)

(** The challenge flow entered with [consecutive_challenge=True]: nothing
    is sent, or one request is sent and the outcome is the answer to it,
    response or exception. *)
Lemma handle_challenge_flow_consecutive_outcome request response s :
  let r := handle_challenge_flow E request response true s in
  sent (snd r) = sent s
  \/ (exists q, sent (snd r) = sent s ++ [q]
                /\ fst r = responses E (length (sent s))).
Proof.
  unfold handle_challenge_flow, handle_challenge_flow_body, bind, modify, lift.
  cbn [fst snd].
  destruct (hdr_get (response_headers response) "WWW-Authenticate") as [h|];
    [|now left].
  destruct (_has_claims h) as [c|e]; [|now left].
  destruct c; [|now left]. cbn [andb negb].
  pose proof (on_challenge_keeps_sent E request response (set_token None s)) as Hk.
  destruct (on_challenge E request response (set_token None s))
    as [[[b rq]|e] s1]; cbn [fst snd] in Hk |- *; [|now left].
  destruct b; [|now left].
  unfold except_reraise, next_send, on_exception, on_response, ret.
  cbn [fst snd]. right. exists (http_request rq). simpl in Hk.
  destruct (responses E (length (sent s1))) as [x|e] eqn:Hr;
    rewrite Hk in Hr; cbn [fst snd].
  - rewrite andb_false_r. cbn [fst snd]. simpl. now rewrite Hk.
  - simpl. now rewrite Hk.
Qed.

(** The challenge flow entered with [consecutive_challenge=False]: nothing
    is sent; or one request is sent and the outcome is the answer to it; or
    one request is sent, the answer is a response, and the outcome is that
    of the flow entered for this response with
    [consecutive_challenge=True]. *)
Lemma handle_challenge_flow_first_outcome request response s :
  let r := handle_challenge_flow E request response false s in
  sent (snd r) = sent s
  \/ (exists q, sent (snd r) = sent s ++ [q]
                /\ fst r = responses E (length (sent s)))
  \/ (exists q rq response1 s1,
        sent s1 = sent s ++ [q]
        /\ responses E (length (sent s)) = Ok response1
        /\ r = handle_challenge_flow E rq response1 true s1).
Proof.
  cbv zeta. rewrite handle_challenge_flow_unfold.
  remember (handle_challenge_flow_body E _ request response false s) as r eqn:Hrd.
  unfold handle_challenge_flow_body, bind, modify, lift in Hrd.
  cbn [fst snd] in Hrd.
  destruct (hdr_get (response_headers response) "WWW-Authenticate") as [h|];
    [|subst r; now left].
  destruct (_has_claims h) as [c|e]; [|subst r; now left].
  cbn [andb] in Hrd.
  pose proof (on_challenge_keeps_sent E request response (set_token None s)) as Hk.
  destruct (on_challenge E request response (set_token None s))
    as [[[b rq]|e] s1]; cbn [fst snd] in Hk, Hrd; simpl in Hk;
    [|subst r; now left].
  destruct b; [|subst r; now left].
  unfold except_reraise, next_send, on_exception, on_response, ret in Hrd.
  cbn [fst snd] in Hrd. right. rewrite Hk in Hrd.
  destruct (responses E (length (sent s))) as [x|e] eqn:Hr; cbn [fst snd] in Hrd.
  - rewrite andb_true_r in Hrd.
    destruct (status_code x =? 401)%Z; cbn [fst snd] in Hrd;
      [|subst r; left; exists (http_request rq); simpl; now rewrite Hk].
    destruct c; cbn [negb fst snd] in Hrd;
      [subst r; left; exists (http_request rq); simpl; now rewrite Hk|].
    right. exists (http_request rq).
    eexists _, x, (log_sent (http_request rq) s1).
    split; [simpl; now rewrite Hk|]. split; [reflexivity | exact Hrd].
  - subst r. left. exists (http_request rq). simpl. now rewrite Hk.
Qed.

(** X10.  An exception of the next policy is never swallowed and never
    followed by a further request: whenever the answer to one of the
    requests that [send] hands over is an exception, that request is the
    last one and [send] raises that exception. *)
Theorem transport_errors_end_send request s :
  exists qs,
    sent (snd (send E request s)) = sent s ++ qs
    /\ forall k e,
         k < length qs ->
         responses E (length (sent s) + k) = Raise e ->
         fst (send E request s) = Raise e /\ length qs = S k.
Proof.
  pose proof (on_request_keeps_sent E request s) as Hk.
  destruct (on_request E request s) as [[rq|e0] s0] eqn:Hreq; cbn [snd] in Hk.
  2:{ exists []. unfold send, bind. rewrite Hreq. cbn [fst snd].
      rewrite app_nil_r. split; [exact Hk|]. simpl. lia. }
  rewrite (send_first_answer _ _ _ _ Hreq).
  assert (Hone : forall (k : nat) (a b : HttpRequest), k < length [a] -> k = 0)
    by (simpl; lia).
  set (s1 := log_sent (http_request rq) s0).
  assert (Hs1 : sent s1 = sent s ++ [http_request rq])
    by (unfold s1; simpl; now rewrite Hk).
  assert (Hl1 : length (sent s1) = S (length (sent s)))
    by (rewrite Hs1, length_app; simpl; lia).
  destruct (responses E (length (sent s))) as [r1|e1] eqn:Hr1.
  2:{ exists [http_request rq]. cbn [fst snd]. split; [exact Hs1|].
      intros k e Hlt Hr. simpl in Hlt. assert (k = 0) by lia. subst k.
      rewrite Nat.add_0_r, Hr1 in Hr. now split. }
  destruct (status_code r1 =? 401)%Z.
  2:{ exists [http_request rq]. cbn [fst snd]. split; [exact Hs1|].
      intros k e Hlt Hr. simpl in Hlt. assert (k = 0) by lia. subst k.
      rewrite Nat.add_0_r, Hr1 in Hr. discriminate. }
  clearbody s1.
  pose proof (handle_challenge_flow_first_outcome rq r1 s1) as Hfirst.
  cbv zeta in Hfirst.
  destruct Hfirst as [Hsent | [(q & Hsent & Hres)
                               | (q & rq2 & r2 & s2 & Hs2 & Hr2 & Hrec)]].
  - exists [http_request rq]. rewrite Hsent. split; [exact Hs1|].
    intros k e Hlt Hr. simpl in Hlt. assert (k = 0) by lia. subst k.
    rewrite Nat.add_0_r, Hr1 in Hr. discriminate.
  - exists [http_request rq; q]. rewrite Hsent, Hs1, <- app_assoc.
    split; [reflexivity|].
    intros k e Hlt Hr. simpl in Hlt.
    destruct k as [|[|k]]; [| |lia].
    + rewrite Nat.add_0_r, Hr1 in Hr. discriminate.
    + rewrite Nat.add_1_r, <- Hl1 in Hr. rewrite Hres, Hr. now split.
  - rewrite Hrec. rewrite Hl1 in Hr2.
    assert (Hl2 : length (sent s2) = S (S (length (sent s))))
      by (rewrite Hs2, length_app, Hl1; simpl; lia).
    pose proof (handle_challenge_flow_consecutive_outcome rq2 r2 s2) as Hcons.
    cbv zeta in Hcons.
    destruct Hcons as [Hsent | (q' & Hsent & Hres)].
    + exists [http_request rq; q]. rewrite Hsent, Hs2, Hs1, <- app_assoc.
      split; [reflexivity|].
      intros k e Hlt Hr. simpl in Hlt.
      destruct k as [|[|k]]; [| |lia].
      * rewrite Nat.add_0_r, Hr1 in Hr. discriminate.
      * rewrite Nat.add_1_r, Hr2 in Hr. discriminate.
    + exists [http_request rq; q; q'].
      rewrite Hsent, Hs2, Hs1, <- !app_assoc.
      split; [reflexivity|].
      intros k e Hlt Hr. simpl in Hlt.
      destruct k as [|[|[|k]]]; [| | |lia].
      * rewrite Nat.add_0_r, Hr1 in Hr. discriminate.
      * rewrite Nat.add_1_r, Hr2 in Hr. discriminate.
      * replace (length (sent s) + 2) with (S (S (length (sent s)))) in Hr by lia.
        rewrite <- Hl2 in Hr. rewrite Hres, Hr. now split.
Qed.


(** **** The token after a challenge *)

(** From [s] to [s'] token requests were only added, and the token of [s']
    is absent or is the one the credential gave for the last of them. *)
Definition reauthenticated (s s' : State) : Prop :=
  exists l,
    token_requests s' = token_requests s ++ l
    /\ (_token s' = None
        \/ exists l0 tr tok,
             l = l0 ++ [tr] /\ get_token E tr = Ok tok /\ _token s' = Some tok).

Lemma reauthenticated_without_token s s' :
  token_requests s' = token_requests s -> _token s' = None ->
  reauthenticated s s'.
Proof. intros Hr Ht. exists []. rewrite app_nil_r. split; [exact Hr | now left]. Qed.

Lemma reauthenticated_after s s1 s' l1 :
  token_requests s1 = token_requests s ++ l1 ->
  reauthenticated s1 s' -> reauthenticated s s'.
Proof.
  intros H1 (l & Hl & Ht). exists (l1 ++ l). rewrite Hl, H1, <- app_assoc.
  split; [reflexivity|]. destruct Ht as [Ht|(l0 & tr & tok & -> & Hg & Ht)];
    [now left|].
  right. exists (l1 ++ l0), tr, tok. now rewrite <- app_assoc.
Qed.

Lemma on_challenge_try_keeps_token request response :
  keeps _token (on_challenge_try E request response).
Proof.
  unfold on_challenge_try, _update_challenge, set_challenge_for_url,
    get_challenge_for_url.
  repeat first
    [ apply keeps_bind; [|intros ?]
    | apply keeps_ret | apply keeps_raise | apply keeps_get
    | apply keeps_modify; intros ?; reflexivity
    | match goal with
      | |- keeps _ (match ?x with _ => _ end) => destruct x
      | |- keeps _ (if ?b then _ else _) => destruct b
      end ].
Qed.

Lemma on_challenge_reauthenticated request response s :
  _token s = None ->
  reauthenticated s (snd (on_challenge E request response s)).
Proof.
  intros Hnone.
  pose proof (on_challenge_try_keeps_token request response s) as Hkt.
  pose proof (on_challenge_try_keeps_token_requests E request response s) as Hkr.
  unfold on_challenge, except_ValueError, bind.
  destruct (on_challenge_try E request response s) as [[[challenge scope]|e] s1];
    cbn [fst snd] in Hkt, Hkr; cbn beta iota.
  2:{ destruct e; cbn [fst snd ret];
        apply reauthenticated_without_token; congruence. }
  unfold bind, ret at 1. cbn beta iota.
  pose proof (verify_resource_state E request scope s1) as Hv.
  destruct (verify_resource E request scope s1) as [[[]|e] s1']; cbn [snd] in Hv;
    subst s1'; cbn beta iota.
  2:{ apply reauthenticated_without_token; cbn [snd]; congruence. }
  unfold get. cbn beta iota.
  set (rq := match _request_copy s1 with
             | Some copy => mkPipelineRequest copy (context_options request)
             | None => request
             end).
  assert (Hauth : forall tn,
    reauthenticated s
      (snd (match authorize_request E rq scope (claims challenge) tn s1 with
            | (Ok a, s') =>
                match
                  match _request_copy s1 with
                  | Some _ => modify (set_request_copy (Some (http_request a)))
                  | None => ret tt
                  end s'
                with
                | (Ok _, s'0) => (Ok (true, a), s'0)
                | (Raise e, s'0) => (Raise e, s'0)
                end
            | (Raise e, s') => (Raise e, s')
            end))).
  { intros tn.
    unfold authorize_request, call_credential, bind, modify, lift, ret.
    cbn [fst snd].
    destruct (get_token E _) as [tok|e] eqn:Hg; cbn [fst snd].
    - destruct (_request_copy s1); cbn [fst snd];
        (exists [mkTokenRequest scope (claims challenge) tn true
                   (has_get_token_info E)]);
        (split; [simpl; now rewrite Hkr|]);
        right; exists [], (mkTokenRequest scope (claims challenge) tn true
                             (has_get_token_info E)), tok; now repeat split.
    - exists [mkTokenRequest scope (claims challenge) tn true
                (has_get_token_info E)].
      split; [simpl; now rewrite Hkr|]. left. simpl. congruence. }
  destruct (is_adfs (tenant_id challenge)); apply Hauth.
Qed.

Lemma handle_challenge_flow_consecutive_reauthenticated request response s :
  reauthenticated s (snd (handle_challenge_flow E request response true s)).
Proof.
  unfold handle_challenge_flow, handle_challenge_flow_body, bind, modify, lift.
  cbn [fst snd].
  destruct (hdr_get (response_headers response) "WWW-Authenticate") as [h|];
    [|now apply reauthenticated_without_token].
  destruct (_has_claims h) as [c|e]; [|now apply reauthenticated_without_token].
  destruct c; [|now apply reauthenticated_without_token]. cbn [andb negb].
  pose proof (on_challenge_reauthenticated request response (set_token None s)
                eq_refl) as Hre.
  destruct (on_challenge E request response (set_token None s))
    as [[[b rq]|e] s1]; cbn [fst snd] in Hre |- *; [|exact Hre].
  destruct b; [|exact Hre].
  unfold except_reraise, next_send, on_exception, on_response, ret.
  cbn [fst snd].
  destruct (responses E (length (sent s1))) as [x|e]; cbn [fst snd];
    [rewrite andb_false_r; cbn [fst snd]|]; exact Hre.
Qed.

(** X11.  However the challenge flow ends, the token that the policy held
    when the 401 arrived is gone: afterwards the policy holds no token, or
    the token that the credential gave to the last token request made while
    the challenge was handled. *)
Theorem a_401_invalidates_the_token request response consecutive_challenge s :
  reauthenticated s
    (snd (handle_challenge_flow E request response consecutive_challenge s)).
Proof.
  destruct consecutive_challenge;
    [apply handle_challenge_flow_consecutive_reauthenticated|].
  rewrite handle_challenge_flow_unfold.
  unfold handle_challenge_flow_body, bind, modify, lift.
  cbn [fst snd].
  destruct (hdr_get (response_headers response) "WWW-Authenticate") as [h|];
    [|now apply reauthenticated_without_token].
  destruct (_has_claims h) as [c|e]; [|now apply reauthenticated_without_token].
  cbn [andb].
  pose proof (on_challenge_reauthenticated request response (set_token None s)
                eq_refl) as Hre.
  destruct (on_challenge E request response (set_token None s))
    as [[[b rq]|e] s1]; cbn [fst snd] in Hre |- *; [|exact Hre].
  destruct b; [|exact Hre].
  unfold except_reraise, next_send, on_exception, on_response, ret.
  cbn [fst snd].
  destruct (responses E (length (sent s1))) as [x|e]; cbn [fst snd];
    [|exact Hre].
  rewrite andb_true_r.
  destruct (status_code x =? 401)%Z; cbn [fst snd]; [|exact Hre].
  destruct c; cbn [negb fst snd]; [exact Hre|].
  destruct Hre as (l1 & Hl1 & _).
  apply (reauthenticated_after s (log_sent (http_request rq) s1) _ l1);
    [exact Hl1|].
  apply handle_challenge_flow_consecutive_reauthenticated.
Qed.


(** **** Failures while a challenge is handled *)

(** X12.  A 401 whose challenge header, once stripped, has no space in it
    (a scheme without parameters) makes the challenge flow fail with the
    [IndexError] of [_has_claims]: the response is not returned, the cached
    token is dropped, no token is asked for and nothing is sent. *)
Theorem challenge_without_parameters_raises
    request response consecutive_challenge s h :
  hdr_get (response_headers response) "WWW-Authenticate" = Some h ->
  contains " " (strip h) = false ->
  handle_challenge_flow E request response consecutive_challenge s
  = (Raise (IndexError "list index out of range"), set_token None s).
Proof.
  intros Hh Hsp.
  unfold handle_challenge_flow, handle_challenge_flow_body, bind, modify, lift.
  cbn [fst snd]. now rewrite Hh, (_has_claims_without_space h Hsp).
Qed.

(** X13.  When the credential fails while a challenge is answered, the
    challenge flow fails with the error of the credential: the request is
    not sent again, and the policy is left without a token. *)
Theorem credential_error_ends_the_flow
    request response consecutive_challenge s h c challenge scope s1 e :
  hdr_get (response_headers response) "WWW-Authenticate" = Some h ->
  _has_claims h = Ok c ->
  consecutive_challenge && negb c = false ->
  on_challenge_try E request response (set_token None s)
  = (Ok (challenge, scope), s1) ->
  resource_verified E (url (http_request request)) scope = true ->
  get_token E (challenge_token_request E challenge scope) = Raise e ->
  exists s',
    handle_challenge_flow E request response consecutive_challenge s
    = (Raise e, s')
    /\ sent s' = sent s
    /\ token_requests s'
       = token_requests s ++ [challenge_token_request E challenge scope]
    /\ _token s' = None.
Proof.
  intros Hh Hc Hcons Htry Hver Hg.
  pose proof (on_challenge_run _ _ _ _ _ _ Htry Hver) as Hoc.
  rewrite Hg in Hoc.
  pose proof (on_challenge_try_keeps_sent E request response (set_token None s))
    as Hks.
  pose proof (on_challenge_try_keeps_token_requests E request response
                (set_token None s)) as Hkr.
  pose proof (on_challenge_try_keeps_token request response (set_token None s))
    as Hkt.
  rewrite Htry in Hks, Hkr, Hkt. cbn [snd] in Hks, Hkr, Hkt.
  eexists. split.
  - apply (handle_challenge_flow_on_challenge_raises E _ _ _ _ _ _ _ _ Hh Hc
             Hcons Hoc).
  - simpl. rewrite Hks, Hkr, Hkt. now repeat split.
Qed.

End WithEnv.

End PolicyMore.

(* ===================================================================== *)
(** ** Paged listing of deleted paths                                     *)
(* ===================================================================== *)

Module DeletedPaging.

(** The value of a keyword argument or of an attribute: [None], a string
    or an integer. *)
Inductive Value : Type :=
  | VNone
  | VStr (s : string)
  | VInt (n : Z).

Definition of_str (o : option string) : Value :=
  match o with Some s => VStr s | None => VNone end.
Definition of_int (o : option Z) : Value :=
  match o with Some n => VInt n | None => VNone end.

(** [DirectoryPrefix] *)
Record DirectoryPrefix : Type := mkDirectoryPrefix {
  name : Value;
  results_per_page : Value;
  file_system : Value;
  delimiter : Value;
  location_mode : Value
}.

(** [kwargs.get(key)] *)
Definition kwargs_get (kwargs : gmap string Value) (key : string) : Value :=
  default VNone (kwargs !! key).

(** [DirectoryPrefix.__init__], given its keyword arguments. *)
Definition DirectoryPrefix_init (kwargs : gmap string Value) : DirectoryPrefix :=
  mkDirectoryPrefix
    (kwargs_get kwargs "prefix")
    (kwargs_get kwargs "results_per_page")
    (kwargs_get kwargs "container")
    (kwargs_get kwargs "delimiter")
    (kwargs_get kwargs "location_mode").

(** The generated [BlobPrefix]. *)
Record GenBlobPrefix : Type := mkGenBlobPrefix { prefix_name : string }.

Section WithService.

(** The generated [BlobItemInternal], the attributes of the public
    [DeletedPathProperties] other than [file_system], and the conversion
    [get_deleted_path_properties_from_generated_code] are not among the
    sources; they are parameters. *)
Variables BlobItemInternal Details : Type.

Record DeletedPathProperties : Type := mkDeletedPathProperties {
  details : Details;
  deleted_file_system : option string
}.

Variable get_deleted_path_properties_from_generated_code :
  BlobItemInternal -> DeletedPathProperties.

(** The deserialized response of the list operation; the two lists are
    those of its [segment]. *)
Record Response : Type := mkResponse {
  r_service_endpoint : option string;
  r_prefix : option string;
  r_marker : option string;
  r_max_results : option Z;
  r_container_name : option string;
  r_delimiter : option string;
  blob_prefixes : list GenBlobPrefix;
  blob_items : list BlobItemInternal;
  next_marker : option string
}.

(** What a page holds before and after [_build_item]. *)
Inductive Item : Type :=
  | IsBlobPrefix (p : GenBlobPrefix)
  | IsBlobItem (b : BlobItemInternal).

Inductive Built : Type :=
  | Deleted (p : DeletedPathProperties)
  | Directory (d : DirectoryPrefix).

(** The keyword arguments of one call of the list operation. *)
Record CommandArgs : Type := mkCommandArgs {
  a_prefix : option string;
  a_marker : option string;
  a_max_results : option Z;
  a_use_location : option string
}.

(** The list operation: the location mode and the response, or the storage
    error that [process_storage_error] raises. *)
Variable _command : CommandArgs -> Paging.result (option string * Response).

(** The attributes of [DeletedPathPropertiesPaged], and the log of the
    calls of the list operation. *)
Record DeletedPathPropertiesPaged : Type := mkDeletedPaged {
  service_endpoint : option string;
  prefix : option string;
  marker : option string;
  it_results_per_page : option Z;
  container : option string;
  it_delimiter : option string;
  current_page : option (list Built);
  it_location_mode : option string;
  calls : list CommandArgs
}.

(** The attributes that [__init__] sets. *)
Definition init (container_ prefix_ : option string) (results_per_page_ : option Z)
    (delimiter_ location_mode_ : option string) : DeletedPathPropertiesPaged :=
  mkDeletedPaged None prefix_ None results_per_page_ container_ delimiter_ None
    location_mode_ [].

(** [_get_next_cb] *)
Definition _get_next_cb (it : DeletedPathPropertiesPaged)
    (continuation_token : option string)
  : Paging.result (option string * Response) * DeletedPathPropertiesPaged :=
  let args :=
    mkCommandArgs (prefix it)
      (if Policy.opt_truthy continuation_token then continuation_token else None)
      (it_results_per_page it) (it_location_mode it) in
  (_command args,
   mkDeletedPaged (service_endpoint it) (prefix it) (marker it)
     (it_results_per_page it) (container it) (it_delimiter it) (current_page it)
     (it_location_mode it) (calls it ++ [args])).

(** [_build_item] *)
Definition _build_item (it : DeletedPathPropertiesPaged) (item : Item) : Built :=
  match item with
  | IsBlobItem b =>
      let file_props := get_deleted_path_properties_from_generated_code b in
      Deleted (mkDeletedPathProperties (details file_props) (container it))
  | IsBlobPrefix p =>
      Directory
        (DirectoryPrefix_init
           (<["container" := of_str (container it)]>
              (<["prefix" := VStr (prefix_name p)]>
                 (<["results_per_page" := of_int (it_results_per_page it)]>
                    (<["location_mode" := of_str (it_location_mode it)]> ∅)))))
  end.

(** [_extract_data_cb] *)
Definition _extract_data_cb (it : DeletedPathPropertiesPaged)
    (get_next_return : option string * Response)
  : (option string * list Built) * DeletedPathPropertiesPaged :=
  let '(location_mode_, response) := get_next_return in
  let it1 :=
    mkDeletedPaged (r_service_endpoint response) (r_prefix response)
      (r_marker response) (r_max_results response) (r_container_name response)
      (it_delimiter it) (current_page it) location_mode_ (calls it) in
  let page :=
    map (_build_item it1)
      (map IsBlobPrefix (blob_prefixes response)
       ++ map IsBlobItem (blob_items response)) in
  ((if Policy.opt_truthy (next_marker response) then next_marker response else None,
    page),
   mkDeletedPaged (service_endpoint it1) (prefix it1) (marker it1)
     (it_results_per_page it1) (container it1) (r_delimiter response) (Some page)
     (it_location_mode it1) (calls it1)).

End WithService.

Arguments mkDeletedPathProperties {Details}.
Arguments details {Details}.
Arguments deleted_file_system {Details}.
Arguments mkResponse {BlobItemInternal}.
Arguments r_service_endpoint {BlobItemInternal}.
Arguments r_prefix {BlobItemInternal}.
Arguments r_marker {BlobItemInternal}.
Arguments r_max_results {BlobItemInternal}.
Arguments r_container_name {BlobItemInternal}.
Arguments r_delimiter {BlobItemInternal}.
Arguments blob_prefixes {BlobItemInternal}.
Arguments blob_items {BlobItemInternal}.
Arguments next_marker {BlobItemInternal}.
Arguments IsBlobPrefix {BlobItemInternal}.
Arguments IsBlobItem {BlobItemInternal}.
Arguments Deleted {Details}.
Arguments Directory {Details}.
Arguments mkDeletedPaged {Details}.
Arguments service_endpoint {Details}.
Arguments prefix {Details}.
Arguments marker {Details}.
Arguments it_results_per_page {Details}.
Arguments container {Details}.
Arguments it_delimiter {Details}.
Arguments current_page {Details}.
Arguments it_location_mode {Details}.
Arguments calls {Details}.
Arguments init {Details}.
Arguments _get_next_cb {BlobItemInternal Details}.
Arguments _build_item {BlobItemInternal Details}.
Arguments _extract_data_cb {BlobItemInternal Details}.

End DeletedPaging.

(* ===================================================================== *)
(** ** More facts about the paged listings                                *)
(* ===================================================================== *)

Module ListingFacts.

(** [token or None], taken twice, is [token or None]. *)
Lemma or_None_twice (c : option string) :
  (if Policy.opt_truthy (if Policy.opt_truthy c then c else None)
   then (if Policy.opt_truthy c then c else None) else None)
  = (if Policy.opt_truthy c then c else None).
Proof. destruct (Policy.opt_truthy c) eqn:H; [now rewrite H | reflexivity]. Qed.

Lemma or_None_absent (c : option string) :
  (if Policy.opt_truthy c then c else None) = None <-> c = None \/ c = Some "".
Proof.
  destruct c as [x|]; simpl; [|intuition].
  destruct (PyStr.truthy x) eqn:H; split.
  - discriminate.
  - intros [H'|[= ->]]; [discriminate | discriminate].
  - intros _. right. f_equal. now apply PyStrFacts.truthy_false.
  - reflexivity.
Qed.

Section Paths.

Import Paging.

Variables Path PathProperties : Type.
Variable _from_generated : Path -> PathProperties.
Variable _command :
  option string -> result (list (Item Path PathProperties) * option string).

(** X14.  What [PathPropertiesPaged] asks the service for.  A new iterator
    asks for the first page with the continuation it was constructed with,
    or from the start when that is absent or the empty string.  After a page
    it asks with the continuation of the response, which it has taken for
    absent exactly when the response had none or an empty one; the empty
    string never reaches the service.  The page is the path list of the
    response, item for item and in its order. *)
Theorem path_listing_continuations :
  (forall c,
     let it0 : PathPropertiesPaged Path PathProperties := init c in
     calls (snd (_get_next_cb _command it0 (continuation_token it0)))
     = [if Policy.opt_truthy c then c else None])
  /\ (forall (it : PathPropertiesPaged Path PathProperties) pl c,
        let out := _extract_data_cb _from_generated it (pl, c) in
        calls (snd (_get_next_cb _command (snd out) (fst (fst out))))
        = calls it ++ [if Policy.opt_truthy c then c else None]
        /\ (fst (fst out) = None <-> c = None \/ c = Some "")
        /\ fst (fst out) <> Some ""
        /\ snd (fst out) = map (_build_item _from_generated) pl
        /\ length (snd (fst out)) = length pl).
Proof.
  split.
  - intros c. cbv zeta. unfold _get_next_cb, init. simpl.
    destruct (Policy.opt_truthy c) eqn:H; simpl; [|reflexivity].
    destruct c as [x|]; [|discriminate]. simpl in *. now rewrite H.
  - intros it pl c. cbv zeta. unfold _get_next_cb, _extract_data_cb. simpl.
    rewrite or_None_twice. split; [reflexivity|].
    split; [apply or_None_absent|]. split; [|split].
    + destruct c as [x|]; simpl; [|discriminate].
      destruct (PyStr.truthy x) eqn:H; [|discriminate].
      intros [= ->]. discriminate.
    + reflexivity.
    + apply length_map.
Qed.

End Paths.

Section Deleted.

Import DeletedPaging.

Variables BlobItemInternal Details : Type.
Variable get_deleted_path_properties_from_generated_code :
  BlobItemInternal -> DeletedPathProperties Details.
Variable _command :
  CommandArgs -> Paging.result (option string * Response BlobItemInternal).

Lemma _build_item_prefix (it : DeletedPathPropertiesPaged Details) p :
  _build_item get_deleted_path_properties_from_generated_code it (IsBlobPrefix p)
  = Directory
      (mkDirectoryPrefix (VStr (prefix_name p)) (of_int (it_results_per_page it))
         (of_str (container it)) VNone (of_str (it_location_mode it))).
Proof. reflexivity. Qed.

(** X15.  A page of deleted paths is made from the response alone, whatever
    the iterator held before: first the directory prefixes of the response
    in their order, then its deleted paths in theirs.  Every entry gets the
    container name of the response as its file system; a directory prefix
    gets the [max_results] of the response and the location mode that came
    with it, and its delimiter is always [None], also when the response has
    a delimiter. *)
Theorem deleted_page_is_made_from_the_response
    (it : DeletedPathPropertiesPaged Details) lm (r : Response BlobItemInternal) :
  snd (fst (_extract_data_cb get_deleted_path_properties_from_generated_code
              it (lm, r)))
  = map (fun p =>
           Directory
             (mkDirectoryPrefix (VStr (prefix_name p)) (of_int (r_max_results r))
                (of_str (r_container_name r)) VNone (of_str lm)))
        (blob_prefixes r)
    ++ map (fun b =>
              Deleted
                (mkDeletedPathProperties
                   (details (get_deleted_path_properties_from_generated_code b))
                   (r_container_name r)))
         (blob_items r).
Proof.
  unfold _extract_data_cb. cbn [fst snd].
  rewrite map_app, !map_map. f_equal.
Qed.

(** X16.  After a page of deleted paths the iterator asks the service with
    what the response said, not with what it was constructed with: the
    prefix and [max_results] of the response, the location mode that came
    with it, and its [next_marker] (from the start when that is absent or
    empty). *)
Theorem deleted_listing_follows_the_response
    (it : DeletedPathPropertiesPaged Details) lm (r : Response BlobItemInternal) :
  let out :=
    _extract_data_cb get_deleted_path_properties_from_generated_code it (lm, r) in
  calls (snd (_get_next_cb _command (snd out) (fst (fst out))))
  = calls it
    ++ [mkCommandArgs (r_prefix r)
          (if Policy.opt_truthy (next_marker r) then next_marker r else None)
          (r_max_results r) lm].
Proof.
  cbv zeta. unfold _get_next_cb, _extract_data_cb. cbn [fst snd calls prefix
    it_results_per_page it_location_mode].
  now rewrite or_None_twice.
Qed.

End Deleted.

End ListingFacts.

(* ===================================================================== *)
(** ** The further facts at work                                          *)
(* ===================================================================== *)

Module MoreScenarios.
Import Policy Sample PolicyFacts Scenarios PolicyMore.

(** The token that [credential] issues for the challenge of the discovery. *)
Definition the_token : AccessToken :=
  mkAccessToken "token:https://example.net/.default:tenant-1:" 3600 None.

(** A policy that knows the challenge of the vault and holds no token. *)
Definition challenged : State :=
  mkState None None (<[cache_key vault := cached_kv_challenge]> ∅) [] [].

(** X1 at work: a scheme alone, and a challenge with two parameters. *)
Lemma has_claims_reads_the_parameters_witness :
  _has_claims "Bearer" = Raise (IndexError "list index out of range")
  /\ _has_claims "Bearer error=insufficient_claims, claims=abc"
     = Ok (contains "claims=" "error=insufficient_claims, claims=abc").
Proof.
  split.
  - apply (proj1 (has_claims_reads_the_parameters "Bearer")). reflexivity.
  - apply (proj2 (has_claims_reads_the_parameters
                    "Bearer error=insufficient_claims, claims=abc")
             "Bearer" "error=insufficient_claims, claims=abc");
      vm_compute; reflexivity.
Defined.

(** X2 at work: the second request of an authenticated policy. *)
Lemma on_request_reuses_a_fresh_token_witness :
  on_request history (request vault None) authenticated
  = (Ok (with_bearer the_token (request vault None)), authenticated).
Proof.
  apply (on_request_reuses_a_fresh_token history (request vault None)
           authenticated cached_kv_challenge the_token).
  - vm_compute; reflexivity.
  - vm_compute; reflexivity.
  - reflexivity.
  - vm_compute. discriminate.
  - left. reflexivity.
Defined.

(** A challenge that names a scope of its own besides the resource. *)
Definition scoped_challenge : HttpChallenge :=
  mkHttpChallenge
    (<["scope" := "https://example.net/user_impersonation"]>
       (<["resource" := "https://example.net"]> ∅))
    None (Some "tenant-1").

(** X3 at work: the challenge is known and there is no token.  The scope
    asked for is the resource followed by "/.default" when the challenge
    names no scope, and the scope it names when it does. *)
Lemma on_request_asks_for_a_new_token_witness :
  on_request history (request vault None) challenged
  = (Ok (with_bearer the_token (request vault None)),
     set_token (Some the_token)
       (log_token_request
          (mkTokenRequest "https://example.net/.default" None (Some "tenant-1")
             true false)
          challenged))
  /\ token_requests
       (snd (on_request history (request vault None)
               (mkState None None (<[cache_key vault := scoped_challenge]> ∅) [] [])))
     = [mkTokenRequest "https://example.net/user_impersonation" None
          (Some "tenant-1") true false].
Proof.
  split.
  - rewrite (on_request_asks_for_a_new_token history (request vault None)
               challenged cached_kv_challenge "https://example.net/.default").
    + reflexivity.
    + vm_compute; reflexivity.
    + vm_compute; reflexivity.
    + left. reflexivity.
    + right. split; [left|]; vm_compute; reflexivity.
  - rewrite (on_request_asks_for_a_new_token history (request vault None)
               (mkState None None (<[cache_key vault := scoped_challenge]> ∅) [] [])
               scoped_challenge "https://example.net/user_impersonation").
    + reflexivity.
    + vm_compute; reflexivity.
    + vm_compute; reflexivity.
    + left. reflexivity.
    + left. split; [vm_compute; reflexivity | discriminate].
Defined.

(** X4 at work: the tenant "tenant-1". *)
Lemma other_tenants_are_passed_on_witness :
  (forall scope s,
     token_requests (snd (_request_kv_token history scope cached_kv_challenge s))
     = token_requests s
       ++ [mkTokenRequest scope None
             (if has_get_token_info history
                 && negb (opt_truthy (tenant_id cached_kv_challenge))
              then None else tenant_id cached_kv_challenge)
             true (has_get_token_info history)])
  /\ (forall request response s scope s1,
        on_challenge_try history request response s
        = (Ok (cached_kv_challenge, scope), s1) ->
        resource_verified history (url (http_request request)) scope = true ->
        token_requests (snd (on_challenge history request response s))
        = token_requests s
          ++ [mkTokenRequest scope (claims cached_kv_challenge)
                (tenant_id cached_kv_challenge) true (has_get_token_info history)]).
Proof.
  apply (other_tenants_are_passed_on history cached_kv_challenge). reflexivity.
Defined.

(** The vault of [history] behind a policy that does not verify the
    resource of a challenge. *)
Definition unverified : Env := env false false [discovery_401; ok_200].

(** X5 at work: the challenge names [example.net] and the request goes to
    [vault.other.net]. *)
Lemma verification_can_be_switched_off_witness :
  token_requests
    (snd (on_challenge unverified (request "https://vault.other.net/keys" None)
            discovery_401 state0))
  = token_requests state0
    ++ [challenge_token_request unverified cached_kv_challenge
          (scope_or_default cached_kv_challenge)]
  /\ (forall e,
        fst (on_challenge unverified (request "https://vault.other.net/keys" None)
               discovery_401 state0) = Raise e ->
        get_token unverified
          (challenge_token_request unverified cached_kv_challenge
             (scope_or_default cached_kv_challenge)) = Raise e).
Proof.
  apply (verification_can_be_switched_off unverified
           (request "https://vault.other.net/keys" None) discovery_401 state0
           cached_kv_challenge (scope_or_default cached_kv_challenge)
           (set_cache (<["vault.other.net" := cached_kv_challenge]> (cache state0))
              state0)).
  - reflexivity.
  - vm_compute; reflexivity.
Defined.

(** A challenge that names the authorization endpoint and nothing else. *)
Definition bare_challenge : string :=
  "Bearer authorization=" +:+ quoted "https://login.windows.net/tenant-1".

Definition parsed_bare_challenge : HttpChallenge :=
  Eval vm_compute in
    default (mkHttpChallenge ∅ None None)
      (parse_challenge vault (Some bare_challenge) ∅).

(** X6 at work. *)
Lemma challenge_without_scope_is_refused_witness :
  exists s1,
    on_challenge history (request vault None)
      (response 401 (Some bare_challenge) "") state0
    = (Raise (ValueError (invalid_scope_message "/.default")), s1)
    /\ token_requests s1 = token_requests state0
    /\ sent s1 = sent state0
    /\ cache s1 !! cache_key (url (http_request (request vault None)))
       = Some parsed_bare_challenge.
Proof.
  apply (challenge_without_scope_is_refused history (request vault None)
           (response 401 (Some bare_challenge) "") state0 parsed_bare_challenge);
    vm_compute; reflexivity.
Defined.

(** A vault that answers 401 without a challenge. *)
Definition denied_401 : HttpResponse := response 401 None "denied".

(** X7 at work: a 401 without a [WWW-Authenticate] header. *)
Lemma first_answer_is_returned_witness :
  exists s',
    send (env true false [denied_401; ok_200]) (request vault None) state0
    = (Ok denied_401, s')
    /\ sent s' = sent state0 ++ [http_request (request vault None)]
    /\ token_requests s' = token_requests state0.
Proof.
  apply (first_answer_is_returned (env true false [denied_401; ok_200])
           (request vault None) state0 (request vault None) state0 denied_401).
  - vm_compute; reflexivity.
  - reflexivity.
  - right. reflexivity.
Defined.

(** X8 at work: the discovery of [history] with a body to send. *)
Lemma discovery_sends_the_body_with_the_token_witness :
  exists s',
    send history (request vault (Some "body")) state0 = (Ok ok_200, s')
    /\ sent s' = sent state0
                 ++ [bodiless (http_request (request vault (Some "body")));
                     http_request (with_bearer the_token (request vault (Some "body")))]
    /\ token_requests s'
       = token_requests state0
         ++ [challenge_token_request history cached_kv_challenge
               (scope_or_default cached_kv_challenge)]
    /\ _token s' = Some the_token
    /\ _request_copy s'
       = Some (http_request (with_bearer the_token (request vault (Some "body")))).
Proof.
  apply (discovery_sends_the_body_with_the_token history
           (request vault (Some "body")) state0 discovery_401 kv_challenge false
           cached_kv_challenge the_token ok_200);
    try (vm_compute; reflexivity).
  vm_compute. discriminate.
Defined.

(** A vault that answers twice in a row with its challenge. *)
Definition stubborn : Env := env true false [discovery_401; discovery_401; ok_200].

(** X9 at work. *)
Lemma second_challenge_without_claims_is_returned_witness :
  exists s',
    send stubborn (request vault None) state0 = (Ok discovery_401, s')
    /\ sent s' = sent state0
                 ++ [http_request (request vault None);
                     http_request (with_bearer the_token (request vault None))]
    /\ token_requests s'
       = token_requests
           (snd (on_challenge stubborn (request vault None) discovery_401
                   (set_token None
                      (log_sent (http_request (request vault None)) state0))))
    /\ cache s'
       = cache
           (snd (on_challenge stubborn (request vault None) discovery_401
                   (set_token None
                      (log_sent (http_request (request vault None)) state0))))
    /\ _token s' = None.
Proof.
  apply (second_challenge_without_claims_is_returned stubborn
           (request vault None) state0 (request vault None) state0 discovery_401
           kv_challenge (with_bearer the_token (request vault None))
           (snd (on_challenge stubborn (request vault None) discovery_401
                   (set_token None
                      (log_sent (http_request (request vault None)) state0))))
           discovery_401).
  - vm_compute; reflexivity.
  - reflexivity.
  - reflexivity.
  - vm_compute; reflexivity.
  - vm_compute; reflexivity.
  - vm_compute; reflexivity.
  - reflexivity.
  - reflexivity.
  - right. exists kv_challenge. split; vm_compute; reflexivity.
Defined.

(** X12 at work: the header is the scheme alone. *)
Lemma challenge_without_parameters_raises_witness :
  handle_challenge_flow history (request vault None)
    (response 401 (Some "Bearer") "") false authenticated
  = (Raise (IndexError "list index out of range"), set_token None authenticated).
Proof.
  apply (challenge_without_parameters_raises history (request vault None)
           (response 401 (Some "Bearer") "") false authenticated "Bearer");
    vm_compute; reflexivity.
Defined.

(** The vault of [history] and a credential that always fails. *)
Definition no_credential : Env :=
  mkEnv parse_challenge false
    (fun _ => Raise (ClientAuthenticationError "no token")) true
    (responses history) 0.

(** X13 at work. *)
Lemma credential_error_ends_the_flow_witness :
  exists s',
    handle_challenge_flow no_credential (request vault None) discovery_401 false
      state0
    = (Raise (ClientAuthenticationError "no token"), s')
    /\ sent s' = sent state0
    /\ token_requests s'
       = token_requests state0
         ++ [challenge_token_request no_credential cached_kv_challenge
               (scope_or_default cached_kv_challenge)]
    /\ _token s' = None.
Proof.
  apply (credential_error_ends_the_flow no_credential (request vault None)
           discovery_401 false state0 kv_challenge false cached_kv_challenge
           (scope_or_default cached_kv_challenge)
           (set_cache (<[cache_key vault := cached_kv_challenge]>
                         (cache (set_token None state0)))
              (set_token None state0))
           (ClientAuthenticationError "no token"));
    vm_compute; reflexivity.
Defined.

End MoreScenarios.
